(** * Vector2d and ShortVector2d: a shallow embedding and its properties

    The development follows [vector2d/vector2d.py] and
    [vector2d/short_vector2d.py].  A Python [float] is an IEEE 754 binary64
    value; the [array] type code ['f'] stores IEEE 754 binary32 values.
    Both are modelled with the specification floats of the Standard Library
    ([SpecFloat]), bundled with their validity, so that "every vector"
    ranges exactly over the pairs of binary64 values.

    Conventions of the model:
    - the definitions come in two layers.  The first sees values: a
      float is the double it holds, a vector is its class and two doubles,
      and a NaN carries no payload and no sign (one quiet NaN).  It serves
      construction, the byte encoding, formatting, and [==] and [hash] as
      far as values decide them.  The second, [Obj], sees objects: a
      float object has an address, [float()] returns a float argument as the
      object it is, an instance has slots that [__init__] assigns one after
      the other, the comparison of two tuples takes the same object for
      equal before it calls [==], a NaN is hashed by its address, and an
      object of any other type takes part by what the code observes of it
      (what iterating it and comparing it raise).  The two layers differ
      only where a coordinate is a NaN or a comparand is such an object;
      there the value layer compares distinct objects by [==] and reports
      the hash as derived from the identity ([HashOfIdentity]);
    - the builtins [float()], [hash()], [repr()] and the fixed-point
      format are models of CPython 3.11 on a 64-bit platform; [math.hypot],
      [math.atan2] and [format()] of a float are parameters;
    - exceptions are the constructors of [exc]; a call that can raise
      returns a [result];
    - the platform is an LP64 CPython; the native byte order is a
      parameter, [byteorder]. *)

From Stdlib Require Import ZArith List String Ascii Bool Lia Eqdep_dec.
From Stdlib Require Import SpecFloat DecimalString.
Import ListNotations.
Open Scope Z_scope.
Set Warnings "-register-all".

(* ================================================================= *)
(** * Part I: definitions *)
(* ================================================================= *)

(** ** Exceptions and results *)

(** The exceptions that the code and the builtins it calls raise;
    [OtherError] is an exception of any other class, which only the code
    of another object raises. *)
Inductive exc : Type :=
| IndexError
| TypeError
| ValueError
| OverflowError
| AttributeError
| OtherError (name : string).

Inductive result (A : Type) : Type :=
| Ok (a : A)
| Raise (e : exc).

Arguments Ok {A} a.
Arguments Raise {A} e.

Definition bind {A B : Type} (r : result A) (k : A -> result B) : result B :=
  match r with
  | Ok a => k a
  | Raise e => Raise e
  end.

Declare Scope result_scope.
Delimit Scope result_scope with result.
Notation "x <- r ;; k" := (bind r (fun x => k))
  (at level 61, r at next level, right associativity) : result_scope.
Open Scope result_scope.

(** ** IEEE 754 binary floating point *)

Module IEEE.

(** A binary floating-point datum of precision [prec] and exponent bound
    [emax]: a specification float that is canonical for the format. *)
Record binary (prec emax : Z) : Type := mkBinary {
  fval : spec_float;
  fvalid : valid_binary prec emax fval = true
}.

Arguments mkBinary {prec emax} fval fvalid.
Arguments fval {prec emax} b.
Arguments fvalid {prec emax} b.

Definition B_nan {prec emax : Z} : binary prec emax :=
  mkBinary S754_nan eq_refl.

Definition B_zero {prec emax : Z} (s : bool) : binary prec emax :=
  mkBinary (S754_zero s) eq_refl.

Definition B_inf {prec emax : Z} (s : bool) : binary prec emax :=
  mkBinary (S754_infinity s) eq_refl.

(** Packs a specification float with the evidence of its validity.  The
    rounding functions of [SpecFloat] and the decoder [spec_of_bits] only
    return valid data (lemmas [fval_round], [fval_of_Z], [fval_of_ratio]
    and [spec_of_bits_valid]), so the second branch is never taken by the
    code below. *)
Definition pack (prec emax : Z) (f : spec_float) : binary prec emax :=
  match valid_binary prec emax f as b
        return valid_binary prec emax f = b -> binary prec emax with
  | true => fun H => mkBinary f H
  | false => fun _ => B_nan
  end eq_refl.

(** Round-to-nearest-even of [(-1)^s * m * 2^e] into the format. *)
Definition round (prec emax : Z) (s : bool) (m : positive) (e : Z)
  : binary prec emax :=
  pack prec emax (binary_round prec emax s m e).

(** Conversion between formats: rounding when the target is narrower,
    exact when it is wider.  Zeros, infinities and NaN are kept. *)
Definition convert {p1 e1 : Z} (p2 e2 : Z) (x : binary p1 e1)
  : binary p2 e2 :=
  match fval x with
  | S754_finite s m e => round p2 e2 s m e
  | S754_zero s => B_zero s
  | S754_infinity s => B_inf s
  | S754_nan => B_nan
  end.

(** The integer [n] rounded to the format. *)
Definition of_Z (prec emax : Z) (n : Z) : binary prec emax :=
  pack prec emax (binary_normalize prec emax n 0 false).

(** The quotient [n / d] of two positive integers, rounded once. *)
Definition of_ratio (prec emax : Z) (s : bool) (n d : positive)
  : binary prec emax :=
  let '(q, e, l) := SFdiv_core_binary prec emax (Zpos n) 0 (Zpos d) 0 in
  pack prec emax (binary_round_aux prec emax s q e l).

(** The decimal [(-1)^s * n * 10^k] rounded to the format. *)
Definition of_decimal (prec emax : Z) (s : bool) (n : Z) (k : Z)
  : binary prec emax :=
  match n with
  | Zpos p =>
      match k with
      | Zneg q => of_ratio prec emax s p (10 ^ q)%positive
      | _ => round prec emax s (p * Z.to_pos (10 ^ k))%positive 0
      end
  | _ => B_zero s
  end.

Definition is_nan {prec emax : Z} (x : binary prec emax) : bool :=
  match fval x with S754_nan => true | _ => false end.

Definition is_finite {prec emax : Z} (x : binary prec emax) : bool :=
  match fval x with
  | S754_zero _ | S754_finite _ _ _ => true
  | _ => false
  end.

(** IEEE equality: NaN differs from everything, the two zeros are equal. *)
Definition eqb {prec emax : Z} (x y : binary prec emax) : bool :=
  SFeqb (fval x) (fval y).

(** Exact comparison of a float with an integer, as [float.__eq__] does
    with an [int] operand: no rounding of the integer. *)
Definition eqb_Z {prec emax : Z} (x : binary prec emax) (n : Z) : bool :=
  match fval x with
  | S754_zero _ => n =? 0
  | S754_finite s m e =>
      let v := if s then Zneg m else Zpos m in
      if 0 <=? e then v * 2 ^ e =? n else v =? n * 2 ^ (- e)
  | _ => false
  end.

(** *** Interchange encoding *)

Section Bits.
Variables prec emax : Z.

(** Width of the trailing significand and of the biased exponent. *)
Definition mw : Z := prec - 1.
Definition ew : Z := Z.log2 emax + 1.

Definition join_bits (s : bool) (m e : Z) : Z :=
  ((if s then 2 ^ ew else 0) + e) * 2 ^ mw + m.

Definition bits_of_spec (f : spec_float) : Z :=
  match f with
  | S754_zero s => join_bits s 0 0
  | S754_infinity s => join_bits s 0 (2 ^ ew - 1)
  | S754_nan => join_bits false (2 ^ (mw - 1)) (2 ^ ew - 1)
  | S754_finite s m e =>
      if 2 ^ mw <=? Zpos m
      then join_bits s (Zpos m - 2 ^ mw) (e - emin prec emax + 1)
      else join_bits s (Zpos m) 0
  end.

Definition spec_of_bits (n : Z) : spec_float :=
  let s := 2 ^ (mw + ew) <=? n in
  let m := n mod 2 ^ mw in
  let e := (n / 2 ^ mw) mod 2 ^ ew in
  if e =? 0 then
    match m with
    | Zpos p => S754_finite s p (emin prec emax)
    | _ => S754_zero s
    end
  else if e =? 2 ^ ew - 1 then
    if m =? 0 then S754_infinity s else S754_nan
  else
    match m + 2 ^ mw with
    | Zpos p => S754_finite s p (e + emin prec emax - 1)
    | _ => S754_nan
    end.

Definition bits_of (x : binary prec emax) : Z := bits_of_spec (fval x).

Definition of_bits (n : Z) : binary prec emax :=
  pack prec emax (spec_of_bits n).

End Bits.

End IEEE.

Definition binary64 : Type := IEEE.binary 53 1024.
Definition binary32 : Type := IEEE.binary 24 128.

(** A Python [float]. *)
Definition float : Type := binary64.

(** ** Bytes *)

Definition byte := Byte.byte.

Definition byte_of_Z (z : Z) : byte :=
  match Byte.of_N (Z.to_N (z mod 256)) with
  | Some b => b
  | None => Byte.x00
  end.

Definition Z_of_byte (b : byte) : Z := Z.of_N (Byte.to_N b).

(** [ord c] for a one-character string [c]. *)
Definition ord (c : ascii) : Z := Z.of_N (N_of_ascii c).

(** [chr n] for [0 <= n < 256]. *)
Definition chr (n : Z) : ascii := ascii_of_N (Z.to_N n).

(** The byte order of the platform: [array] and [memoryview.cast] use the
    native one. *)
Inductive byteorder : Type :=
| LittleEndian
| BigEndian.

Fixpoint le_bytes (n : nat) (z : Z) : list byte :=
  match n with
  | O => []
  | S k => byte_of_Z z :: le_bytes k (z / 256)
  end.

Fixpoint le_int (bs : list byte) : Z :=
  match bs with
  | [] => 0
  | b :: rest => Z_of_byte b + 256 * le_int rest
  end.

(** An unsigned integer below [256^n] as [n] bytes, and back. *)
Definition int_to_bytes (order : byteorder) (n : nat) (z : Z) : list byte :=
  match order with
  | LittleEndian => le_bytes n z
  | BigEndian => rev (le_bytes n z)
  end.

Definition int_from_bytes (order : byteorder) (bs : list byte) : Z :=
  match order with
  | LittleEndian => le_int bs
  | BigEndian => le_int (rev bs)
  end.

(** Two's complement reading of an unsigned [n]-byte integer. *)
Definition to_signed (n : nat) (z : Z) : Z :=
  let half := 2 ^ (8 * Z.of_nat n - 1) in
  if z <? half then z else z - 2 * half.

(** ** The classes and their instances *)

(** [Vector2d] and its subclass [ShortVector2d]. *)
Inductive pyclass : Type :=
| Vector2d
| ShortVector2d.

(** The class attribute [typecode]: ['d'] in [Vector2d], overridden to
    ['f'] in [ShortVector2d]. *)
Definition typecode (cls : pyclass) : ascii :=
  match cls with
  | Vector2d => "d"%char
  | ShortVector2d => "f"%char
  end.

(** An instance: its class and the two slots [__x] and [__y].  Nothing
    assigns to the slots after [__init__], and the properties [x] and [y]
    have no setter. *)
Record instance : Type := mkInstance {
  ob_type : pyclass;
  x : float;
  y : float
}.

(** ** Python values *)

(** The objects that the code can be handed as coordinates, as comparands
    of [==] and as items of a [memoryview]. *)
Inductive value : Type :=
| PyNone
| PyBool (b : bool)
| PyInt (n : Z)
| PyFloat (f : float)
| PyStr (s : string)
| PyBytes (b : list byte)
| PyTuple (items : list value)
| PyList (items : list value)
| PyVector (v : instance).

(** ** The builtin [float()] *)

Definition is_digit (c : ascii) : bool :=
  (48 <=? ord c) && (ord c <=? 57).

(** White space that [float()] strips from a [bytes] argument
    ([Py_ISSPACE]) and from a [str] argument (which first maps the
    non-ASCII Unicode spaces, here U+0085 and U+00A0, to a blank). *)
Definition is_space_bytes (c : ascii) : bool :=
  ((9 <=? ord c) && (ord c <=? 13)) || (ord c =? 32).

Definition is_space_str (c : ascii) : bool :=
  is_space_bytes c || (ord c =? 133) || (ord c =? 160).

Definition lower (c : ascii) : ascii :=
  if (65 <=? ord c) && (ord c <=? 90) then chr (ord c + 32) else c.

(** [_Py_string_to_number_with_underscores]: an underscore must stand
    between two digits; the underscores are then dropped. *)
Fixpoint drop_underscores (prev : ascii) (s : list ascii)
  : option (list ascii) :=
  match s with
  | [] => if Ascii.eqb prev "_" then None else Some []
  | c :: rest =>
      if Ascii.eqb c "_" then
        if is_digit prev then drop_underscores c rest else None
      else if Ascii.eqb prev "_" && negb (is_digit c) then None
      else option_map (cons c) (drop_underscores c rest)
  end.

Fixpoint lstrip (sp : ascii -> bool) (s : list ascii) : list ascii :=
  match s with
  | c :: rest => if sp c then lstrip sp rest else s
  | [] => []
  end.

Definition strip (sp : ascii -> bool) (s : list ascii) : list ascii :=
  rev (lstrip sp (rev (lstrip sp s))).

(** The longest prefix of digits, as a number, with its length and the
    rest of the input. *)
Fixpoint read_digits (acc : Z) (len : Z) (s : list ascii)
  : Z * Z * list ascii :=
  match s with
  | c :: rest =>
      if is_digit c then read_digits (10 * acc + (ord c - 48)) (len + 1) rest
      else (acc, len, s)
  | [] => (acc, len, [])
  end.

Definition read_sign (s : list ascii) : bool * list ascii :=
  match s with
  | "-"%char :: rest => (true, rest)
  | "+"%char :: rest => (false, rest)
  | _ => (false, s)
  end.

(** The exponent part: [e] or [E], an optional sign and at least one
    digit.  An [e] that no digit follows is not consumed. *)
Definition read_exponent (s : list ascii) : Z * list ascii :=
  match s with
  | c :: rest =>
      if Ascii.eqb (lower c) "e" then
        let '(neg, rest1) := read_sign rest in
        let '(ex, len, rest2) := read_digits 0 0 rest1 in
        if len =? 0 then (0, s) else ((if neg then - ex else ex), rest2)
      else (0, s)
  | [] => (0, [])
  end.

(** [PyOS_string_to_double] on the whole of [s]: [None] when [s] is not a
    floating-point literal (the caller raises [ValueError]). *)
Definition parse_float (s : list ascii) : option float :=
  let '(neg, body) := read_sign s in
  let word := string_of_list_ascii (map lower body) in
  if String.eqb word "inf" || String.eqb word "infinity" then
    Some (IEEE.B_inf neg)
  else if String.eqb word "nan" then Some IEEE.B_nan
  else
    let '(ipart, ilen, rest) := read_digits 0 0 body in
    let '(fpart, flen, rest1) :=
      match rest with
      | "."%char :: r => read_digits ipart 0 r
      | _ => (ipart, 0, rest)
      end in
    if ilen + flen =? 0 then None
    else
      let '(ex, rest2) := read_exponent rest1 in
      match rest2 with
      | [] => Some (IEEE.of_decimal 53 1024 neg fpart (ex - flen))
      | _ => None
      end.

(** [PyFloat_FromString]. *)
Definition float_from_string (sp : ascii -> bool) (s : list ascii)
  : result float :=
  match drop_underscores " " s with
  | None => Raise ValueError
  | Some s1 =>
      match parse_float (strip sp s1) with
      | Some f => Ok f
      | None => Raise ValueError
      end
  end.

(** [PyLong_AsDouble]: the nearest double, ties to even; an [int] beyond
    the range of the doubles raises [OverflowError]. *)
Definition float_of_int (n : Z) : result float :=
  let f := IEEE.of_Z 53 1024 n in
  if IEEE.is_finite f then Ok f else Raise OverflowError.

Definition ascii_of_byte (b : byte) : ascii := Ascii.ascii_of_byte b.

(** [float(v)]. *)
Definition py_float (v : value) : result float :=
  match v with
  | PyFloat f => Ok f
  | PyInt n => float_of_int n
  | PyBool b => float_of_int (if b then 1 else 0)
  | PyStr s => float_from_string is_space_str (list_ascii_of_string s)
  | PyBytes b => float_from_string is_space_bytes (map ascii_of_byte b)
  | PyNone | PyTuple _ | PyList _ | PyVector _ => Raise TypeError
  end.

(** ** The builtin [hash()] *)

(** [_PyHASH_MODULUS] and [_PyHASH_INF] of a 64-bit CPython. *)
Definition hash_modulus : Z := 2 ^ 61 - 1.
Definition hash_inf : Z := 314159.

(** The hash of an object is an integer, except that the hash of a NaN
    is derived from the address of the float object (CPython 3.10 and
    later), which a value does not determine. *)
Inductive hash_result : Type :=
| Hash (h : Z)
| HashOfIdentity.

(** [_Py_HashDouble]: the value reduced modulo [2^61 - 1], where
    [2^61 = 1], with the sign of the float; [-1] is reserved. *)
Definition hash_float (f : float) : hash_result :=
  match IEEE.fval f with
  | S754_nan => HashOfIdentity
  | S754_infinity s => Hash (if s then - hash_inf else hash_inf)
  | S754_zero _ => Hash 0
  | S754_finite s m e =>
      let h := (Zpos m * 2 ^ (e mod 61)) mod hash_modulus in
      let h := if s then - h else h in
      Hash (if h =? -1 then -2 else h)
  end.

(** The unsigned and the signed reading of a 64-bit word. *)
Definition u64 (z : Z) : Z := z mod 2 ^ 64.
Definition s64 (z : Z) : Z :=
  if u64 z <? 2 ^ 63 then u64 z else u64 z - 2 ^ 64.

Definition XXPRIME_1 : Z := 11400714785074694791.
Definition XXPRIME_2 : Z := 14029467366897019727.
Definition XXPRIME_5 : Z := 2870177450012600261.
Definition XXROTATE (v : Z) : Z :=
  u64 (Z.lor (Z.shiftl v 31) (Z.shiftr v 33)).

(** [tuplehash] of CPython 3.8 and later, over the hashes of the items. *)
Definition tuplehash_lanes (lanes : list Z) : Z :=
  let acc :=
    fold_left
      (fun acc lane =>
         let acc := u64 (acc + u64 lane * XXPRIME_2) in
         let acc := XXROTATE acc in
         u64 (acc * XXPRIME_1))
      lanes XXPRIME_5 in
  let acc :=
    u64 (acc + Z.lxor (Z.of_nat (List.length lanes))
                      (Z.lxor XXPRIME_5 3527539)) in
  if acc =? 2 ^ 64 - 1 then 1546275796 else s64 acc.

Fixpoint hash_items (items : list float) : option (list Z) :=
  match items with
  | [] => Some []
  | f :: rest =>
      match hash_float f, hash_items rest with
      | Hash h, Some hs => Some (h :: hs)
      | _, _ => None
      end
  end.

(** [hash(t)] for a tuple [t] of floats. *)
Definition hash_tuple (items : list float) : hash_result :=
  match hash_items items with
  | Some lanes => Hash (tuplehash_lanes lanes)
  | None => HashOfIdentity
  end.

(** [hash(n)] for an [int]: the magnitude reduced modulo [2^61 - 1], with
    the sign of [n]; [-1] is reserved. *)
Definition hash_int (n : Z) : Z :=
  let h := Z.sgn n * (Z.abs n mod hash_modulus) in
  if h =? -1 then -2 else h.

(** [hash(v)] for a number [v]; a [bool] hashes as the [int] it is.  The
    hash of other objects is not modelled (that of a string depends on the
    process), which [HashOfIdentity] stands for here. *)
Definition hash_number (v : value) : hash_result :=
  match v with
  | PyInt n => Hash (hash_int n)
  | PyBool b => Hash (hash_int (if b then 1 else 0))
  | PyFloat f => hash_float f
  | _ => HashOfIdentity
  end.

Fixpoint hash_number_items (items : list value) : option (list Z) :=
  match items with
  | [] => Some []
  | v :: rest =>
      match hash_number v, hash_number_items rest with
      | Hash h, Some hs => Some (h :: hs)
      | _, _ => None
      end
  end.

(** [hash(t)] for a tuple [t] of numbers. *)
Definition hash_number_tuple (items : list value) : hash_result :=
  match hash_number_items items with
  | Some lanes => Hash (tuplehash_lanes lanes)
  | None => HashOfIdentity
  end.

(** ** Comparison of a float with an object *)

(** [f == v] for a float [f]: numbers compare by value (an [int] exactly,
    a [bool] as 0 or 1); for every other operand both [float.__eq__] and
    the reflected method return [NotImplemented] and the distinct objects
    are unequal. *)
Definition float_eq (f : float) (v : value) : bool :=
  match v with
  | PyFloat g => IEEE.eqb f g
  | PyInt n => IEEE.eqb_Z f n
  | PyBool b => IEEE.eqb_Z f (if b then 1 else 0)
  | _ => false
  end.

(** [t == u] for a tuple [t] of floats and a tuple [u] of other
    objects than these floats: the same length and equal items, in order.
    [Obj.tuple_eq] has the comparison by identity that precedes [==], and
    the exceptions. *)
Fixpoint tuple_eq (t : list float) (u : list value) : bool :=
  match t, u with
  | [], [] => true
  | a :: t', b :: u' => float_eq a b && tuple_eq t' u'
  | _, _ => false
  end.

(** [isinstance(v, Iterable)]. *)
Definition is_Iterable (v : value) : bool :=
  match v with
  | PyStr _ | PyBytes _ | PyTuple _ | PyList _ | PyVector _ => true
  | PyNone | PyBool _ | PyInt _ | PyFloat _ => false
  end.

(** [tuple(v)], for these values, whose iteration does not raise. *)
Definition py_tuple (v : value) : result (list value) :=
  match v with
  | PyStr s =>
      Ok (map (fun c => PyStr (String c EmptyString)) (list_ascii_of_string s))
  | PyBytes b => Ok (map (fun c => PyInt (Z_of_byte c)) b)
  | PyTuple items | PyList items => Ok items
  | PyVector v => Ok [PyFloat (x v); PyFloat (y v)]
  | PyNone | PyBool _ | PyInt _ | PyFloat _ => Raise TypeError
  end.

(** ** [array] and [memoryview] *)

(** The item formats of [memoryview.cast] (CPython 3.11,
    [get_native_fmtchar]) with their native sizes on an LP64 platform. *)
Inductive item_format : Type :=
| FmtChar
| FmtBool
| FmtInt (size : nat) (signed : bool)
| FmtFloat
| FmtDouble.

Definition native_format (c : ascii) : option item_format :=
  match c with
  | "c"%char => Some FmtChar
  | "?"%char => Some FmtBool
  | "b"%char => Some (FmtInt 1 true)
  | "B"%char => Some (FmtInt 1 false)
  | "h"%char => Some (FmtInt 2 true)
  | "H"%char => Some (FmtInt 2 false)
  | "i"%char => Some (FmtInt 4 true)
  | "I"%char => Some (FmtInt 4 false)
  | "l"%char | "q"%char | "n"%char => Some (FmtInt 8 true)
  | "L"%char | "Q"%char | "N"%char | "P"%char => Some (FmtInt 8 false)
  | "f"%char => Some FmtFloat
  | "d"%char => Some FmtDouble
  | _ => None
  end.

Definition itemsize (fmt : item_format) : nat :=
  match fmt with
  | FmtChar | FmtBool => 1
  | FmtInt size _ => size
  | FmtFloat => 4
  | FmtDouble => 8
  end.

(** A double widened from, and narrowed to, single precision: the C
    conversions between [double] and [float]. *)
Definition double_of_single (f : binary32) : float := IEEE.convert 53 1024 f.
Definition single_of_double (f : float) : binary32 := IEEE.convert 24 128 f.

(** The item of a memoryview read from its bytes ([unpack_single]). *)
Definition unpack_single (order : byteorder) (fmt : item_format)
  (bs : list byte) : value :=
  match fmt with
  | FmtChar => PyBytes bs
  | FmtBool => PyBool (negb (int_from_bytes order bs =? 0))
  | FmtInt size signed =>
      let n := int_from_bytes order bs in
      PyInt (if signed then to_signed size n else n)
  | FmtFloat =>
      PyFloat (double_of_single (IEEE.of_bits 24 128 (int_from_bytes order bs)))
  | FmtDouble => PyFloat (IEEE.of_bits 53 1024 (int_from_bytes order bs))
  end.

(** [count] consecutive chunks of [size] elements. *)
Fixpoint chunks {A : Type} (count size : nat) (l : list A) : list (list A) :=
  match count with
  | O => []
  | S k => firstn size l :: chunks k size (skipn size l)
  end.

(** [list(memoryview(bs).cast(c))]: [ValueError] when [c] is no native
    format character (a character outside ASCII raises its subclass
    [UnicodeEncodeError]), [TypeError] when the length of [bs] is not a
    multiple of the item size. *)
Definition memoryview_cast (order : byteorder) (c : ascii) (bs : list byte)
  : result (list value) :=
  match native_format c with
  | None => Raise ValueError
  | Some fmt =>
      let size := itemsize fmt in
      if (List.length bs mod size =? 0)%nat
      then Ok (map (unpack_single order fmt) (chunks (List.length bs / size) size bs))
      else Raise TypeError
  end.

(** [bytes(array(c, items))] for an iterable of floats of length at
    least one: ['d'] stores the doubles, ['f'] stores them converted to
    single precision (a C cast, without range check); an integer type code
    raises [TypeError] on a float, as does ['u'], and any other character
    raises [ValueError]. *)
Definition array_tobytes (order : byteorder) (c : ascii) (items : list float)
  : result (list byte) :=
  match c with
  | "d"%char =>
      Ok (List.concat (map (fun f => int_to_bytes order 8 (IEEE.bits_of 53 1024 f))
                      items))
  | "f"%char =>
      Ok (List.concat (map (fun f => int_to_bytes order 4
                                  (IEEE.bits_of 24 128 (single_of_double f)))
                      items))
  | "b"%char | "B"%char | "u"%char | "h"%char | "H"%char | "i"%char
  | "I"%char | "l"%char | "L"%char | "q"%char | "Q"%char =>
      Raise TypeError
  | _ => Raise ValueError
  end.

(** ** Decimal output of floats *)

Definition string_of_nat_Z (n : Z) : string :=
  NilZero.string_of_uint (N.to_uint (Z.to_N n)).

Definition zeros (n : Z) : string :=
  string_of_list_ascii (repeat "0"%char (Z.to_nat n)).

(** [n] in decimal, padded with zeros on the left to [width] digits. *)
Definition zfill (width : Z) (n : Z) : string :=
  let d := string_of_nat_Z n in
  let pad := zeros (width - Z.of_nat (String.length d)) in
  (pad ++ d)%string.

(** The value [m * 2^e] as a fraction. *)
Definition fraction (m : positive) (e : Z) : Z * Z :=
  if 0 <=? e then (Zpos m * 2 ^ e, 1) else (Zpos m, 2 ^ (- e)).

(** The fraction [num / den] divided by [10^k]. *)
Definition scale10 (num den k : Z) : Z * Z :=
  if 0 <=? k then (num, den * 10 ^ k) else (num * 10 ^ (- k), den).

(** [num / den] rounded to the nearest integer, ties to even. *)
Definition div_half_even (num den : Z) : Z :=
  let q := num / den in
  let r := num mod den in
  if 2 * r <? den then q
  else if den <? 2 * r then q + 1
  else if Z.even q then q else q + 1.

Definition sign_string (s : bool) : string :=
  if s then "-"%string else EmptyString.

(** [format(f, '.<prec>f')]: the exact value rounded to [prec] decimals,
    ties to even. *)
Definition float_fixed (prec : Z) (f : float) : string :=
  let digits (s : bool) (q : Z) : string :=
    let ipart := string_of_nat_Z (q / 10 ^ prec) in
    let fpart := zfill prec (q mod 10 ^ prec) in
    let bare := prec =? 0 in
    (sign_string s ++ ipart
     ++ (if bare then EmptyString else "." ++ fpart))%string in
  match IEEE.fval f with
  | S754_nan => "nan"%string
  | S754_infinity s => (sign_string s ++ "inf")%string
  | S754_zero s => digits s 0
  | S754_finite s m e =>
      let '(num, den) := fraction m e in
      digits s (div_half_even (num * 10 ^ prec) den)
  end.

(** The least [j >= from] with [den <= num * 10^j]. *)
Fixpoint first_power (fuel : nat) (from num den : Z) : Z :=
  match fuel with
  | O => from
  | S k =>
      if den <=? num * 10 ^ from then from
      else first_power k (from + 1) num den
  end.

(** The integer [p] with [10^p <= num / den < 10^(p+1)]. *)
Definition floor_log10 (num den : Z) : Z :=
  if den <=? num
  then Z.of_nat (String.length (string_of_nat_Z (num / den))) - 1
  else - first_power 400 1 num den.

(** The decimal [d * 10^k] with [d] of [n] digits that reads back as
    [f], if there is one: the nearer of the two that enclose [f]. *)
Definition shortest_at (f : float) (s : bool) (num den p n : Z)
  : option (Z * Z) :=
  let k := p - n + 1 in
  let '(a, b) := scale10 num den k in
  let lo := a / b in
  let reads_back (d : Z) := IEEE.eqb (IEEE.of_decimal 53 1024 s d k) f in
  match reads_back lo, reads_back (lo + 1) with
  | true, true => Some (div_half_even a b, k)
  | true, false => Some (lo, k)
  | false, true => Some (lo + 1, k)
  | false, false => None
  end.

Fixpoint shortest (fuel : nat) (f : float) (s : bool) (num den p n : Z)
  : option (Z * Z) :=
  match fuel with
  | O => None
  | S fuel' =>
      match shortest_at f s num den p n with
      | Some r => Some r
      | None => shortest fuel' f s num den p (n + 1)
      end
  end.

(** Removes the zeros that end [d], counting them into the exponent. *)
Fixpoint strip_zeros (fuel : nat) (d k : Z) : Z * Z :=
  match fuel with
  | O => (d, k)
  | S fuel' =>
      if (d mod 10 =? 0) && negb (d =? 0)
      then strip_zeros fuel' (d / 10) (k + 1)
      else (d, k)
  end.

(** [repr(f)], which is also [str(f)] and [format(f, '')]: the shortest
    decimal that reads back as [f], in scientific notation when the decimal
    point would fall more than 16 digits to the right of, or more than 3
    zeros to the left of, the first digit. *)
Definition float_repr (f : float) : string :=
  match IEEE.fval f with
  | S754_nan => "nan"%string
  | S754_infinity s => (sign_string s ++ "inf")%string
  | S754_zero s => (sign_string s ++ "0.0")%string
  | S754_finite s m e =>
      let '(num, den) := fraction m e in
      let p := floor_log10 num den in
      let '(d, k) :=
        match shortest 17 f s num den p 1 with
        | Some (d, k) => strip_zeros 20 d k
        | None => (0, 0)
        end in
      let ds := string_of_nat_Z d in
      let nd := Z.of_nat (String.length ds) in
      let decpt := nd + k in
      let ex := decpt - 1 in
      let first := String.substring 0 1 ds in
      let others := String.substring 1 (Z.to_nat (nd - 1)) ds in
      let ipart := String.substring 0 (Z.to_nat decpt) ds in
      let fpart := String.substring (Z.to_nat decpt) (Z.to_nat (nd - decpt)) ds in
      let exponent := zfill 2 (Z.abs ex) in
      let lead := zeros (- decpt) in
      let trail := zeros (decpt - nd) in
      let single := nd =? 1 in
      let negative := ex <? 0 in
      let body :=
        if (decpt <=? -4) || (16 <? decpt) then
          (first ++ (if single then EmptyString else "." ++ others)
           ++ "e" ++ (if negative then "-" else "+") ++ exponent)%string
        else if decpt <=? 0 then ("0." ++ lead ++ ds)%string
        else if nd <=? decpt then (ds ++ trail ++ ".0")%string
        else (ipart ++ "." ++ fpart)%string
      in
      (sign_string s ++ body)%string
  end.

(** ** [str.format] with automatically numbered fields *)

Inductive piece : Type :=
| Lit (s : string)
| Field.

(** [template.format( *args )]: each [{}] takes the next argument;
    [IndexError] when they run out, and arguments left over are ignored. *)
Fixpoint str_format (template : list piece) (args : list string)
  : result string :=
  match template with
  | [] => Ok EmptyString
  | Lit s :: rest =>
      tail <- str_format rest args ;; Ok (s ++ tail)%string
  | Field :: rest =>
      match args with
      | [] => Raise IndexError
      | a :: args' => tail <- str_format rest args' ;; Ok (a ++ tail)%string
      end
  end.

(** ** [repr] of a tuple *)

(** [repr(t)], which is also [str(t)], for a tuple [t], from the [repr]
    of its items: a tuple of one item is written with a comma. *)
Definition tuple_repr (items : list string) : string :=
  match items with
  | [] => "()"%string
  | [a] => ("(" ++ a ++ ",)")%string
  | _ => ("(" ++ String.concat ", " items ++ ")")%string
  end.

(** A call on each element in turn; the first exception propagates. *)
Fixpoint map_result {A B : Type} (f : A -> result B) (l : list A)
  : result (list B) :=
  match l with
  | [] => Ok []
  | a :: rest =>
      b <- f a ;; bs <- map_result f rest ;; Ok (b :: bs)
  end.

(** [s.endswith(c)] and [s[:-1]]. *)
Definition endswith (s : string) (c : ascii) : bool :=
  match rev (list_ascii_of_string s) with
  | last :: _ => Ascii.eqb last c
  | [] => false
  end.

Definition drop_last (s : string) : string :=
  string_of_list_ascii (removelast (list_ascii_of_string s)).

(** ** The class [Vector2d] ([vector2d.py]) and its subclass
       [ShortVector2d] ([short_vector2d.py]), which inherits every method *)

(** [cls(a, b)], by values: [__init__] converts [a], then [b], with
    [float()] and stores them; an exception of either conversion
    propagates and the call returns no instance.  [Obj.__init__] has the
    two assignments to [self]. *)
Definition __init__ (cls : pyclass) (a b : value) : result instance :=
  fx <- py_float a ;;
  fy <- py_float b ;;
  Ok (mkInstance cls fx fy).

(** [cls( *args )]: [__init__] takes exactly two arguments. *)
Definition call (cls : pyclass) (args : list value) : result instance :=
  match args with
  | [a; b] => __init__ cls a b
  | _ => Raise TypeError
  end.

(** [hash((self.x, self.y))]. *)
Definition __hash__ (self : instance) : hash_result :=
  hash_tuple [x self; y self].

(** The items that [(i for i in (self.x, self.y))] yields. *)
Definition __iter__ (self : instance) : list float :=
  [x self; y self].

(** [type(self).__name__]. *)
Definition __name__ (cls : pyclass) : string :=
  match cls with
  | Vector2d => "Vector2d"%string
  | ShortVector2d => "ShortVector2d"%string
  end.

(** ['{}({!r}, {!r})'.format(class_name, *self)]: the conversion [!r]
    takes the [repr] of a coordinate. *)
Definition __repr__ (self : instance) : result string :=
  let class_name := __name__ (ob_type self) in
  str_format [Field; Lit "("; Field; Lit ", "; Field; Lit ")"]
             (class_name :: map float_repr (__iter__ self)).

(** [str(tuple(self))]. *)
Definition __str__ (self : instance) : string :=
  tuple_repr (map float_repr (__iter__ self)).

(** [bytes([ord(self.typecode)]) + bytes(array(self.typecode, self))]. *)
Definition __bytes__ (order : byteorder) (self : instance)
  : result (list byte) :=
  let typecode := typecode (ob_type self) in
  data <- array_tobytes order typecode (__iter__ self) ;;
  Ok ([byte_of_Z (ord typecode)] ++ data).

(** What [__eq__] returns. *)
Inductive eq_result : Type :=
| NotImplemented
| Returned (b : bool).

Definition __eq__ (self : instance) (other : value) : result eq_result :=
  if negb (is_Iterable other) then Ok NotImplemented
  else
    u <- py_tuple other ;;
    Ok (Returned (tuple_eq (__iter__ self) u)).

(** [self == other].  When [__eq__] returns [NotImplemented], [other] is
    [None], a [bool], an [int] or a [float]; its reflected [__eq__]
    returns [NotImplemented] too, and the comparison falls back to the
    identity of two distinct objects. *)
Definition eq_op (self : instance) (other : value) : result bool :=
  r <- __eq__ self other ;;
  match r with
  | Returned b => Ok b
  | NotImplemented => Ok false
  end.

(** [cls.frombytes(octets)]. *)
Definition frombytes (order : byteorder) (cls : pyclass) (octets : list byte)
  : result instance :=
  match octets with
  | [] => Raise IndexError
  | b :: rest =>
      let typecode := chr (Z_of_byte b) in
      memv <- memoryview_cast order typecode rest ;;
      call cls memv
  end.

(** The methods that call into the C library and the float formatter of
    the interpreter take these as parameters. *)
Section Runtime.

(** [math.hypot] and [math.atan2]. *)
Variable hypot : float -> float -> float.
Variable atan2 : float -> float -> float.

(** [format(c, format_spec)] for a float [c]. *)
Variable format_float : float -> string -> result string.

Definition __abs__ (self : instance) : float :=
  hypot (x self) (y self).

Definition angle (self : instance) : float :=
  atan2 (y self) (x self).

Definition __format__ (self : instance) (format_spec : string)
  : result string :=
  let '(format_spec, coords, outer_fmt) :=
    if endswith format_spec "p"
    then (drop_last format_spec,
          [__abs__ self; angle self],
          [Lit "<"; Field; Lit ", "; Field; Lit ">"])
    else (format_spec,
          __iter__ self,
          [Lit "("; Field; Lit ", "; Field; Lit ")"]) in
  components <- map_result (fun c => format_float c format_spec) coords ;;
  str_format outer_fmt components.

End Runtime.

(** ** Objects with identity

    The definitions above see a float as its value.  The comparison of two
    tuples and the hash of a NaN also see which object a float is, and
    [__init__] assigns the two slots of [self] one after the other.  This
    module models that: a float object is an address together with the
    double it holds; an instance has two slots, empty until [__init__]
    assigns them; and the objects of other types that the code can be
    handed are described by what the code can observe of them.  Addresses
    are abstract: only their equality matters, and that the hash of a NaN
    is a function of its address. *)
Module Obj.

(** A float object.  [float()] of a new value allocates the next
    address. *)
Record float_object : Type := mkFloat {
  ob_addr : Z;
  ob_fval : float
}.

(** [a is b] for two float objects. *)
Definition same_object (a b : float_object) : bool :=
  (ob_addr a =? ob_addr b)
  && (IEEE.bits_of 53 1024 (ob_fval a) =? IEEE.bits_of 53 1024 (ob_fval b)).

(** An instance of [Vector2d] or [ShortVector2d]: its class and the
    slots [__x] and [__y] of [__slots__], under their mangled names. *)
Record vector : Type := mkVector {
  ob_type : pyclass;
  _Vector2d__x : option float_object;
  _Vector2d__y : option float_object
}.

(** The objects that the code can be handed.  [OOther] is an object of
    any other type (a generator, an instance of a user class, a number of
    another library), which is not derived from [Vector2d], given by what
    the code observes of it:
    - [iterable]: [isinstance(o, Iterable)];
    - [as_tuple]: what [tuple(o)] returns or raises;
    - [eq_float f]: the truth value of [f == o] for a float object [f],
      as the comparison of two tuples evaluates it, or what it raises;
    - [reflected_eq v]: what [o.__eq__(v)] returns or raises for a
      vector [v];
    - [as_float]: the value of [float(o)], or what it raises. *)
Inductive object : Type :=
| ONone
| OBool (b : bool)
| OInt (n : Z)
| OFloat (f : float_object)
| OStr (s : string)
| OBytes (b : list byte)
| OTuple (items : list object)
| OList (items : list object)
| OVector (v : vector)
| OOther (iterable : bool) (as_tuple : result (list object))
         (eq_float : float_object -> result bool)
         (reflected_eq : vector -> result eq_result)
         (as_float : result float).

(** The value that [float(o)] has, or the exception it raises: by the
    model of [float()] above for the builtin types. *)
Definition float_value (o : object) : result float :=
  match o with
  | OFloat f => Ok (ob_fval f)
  | OInt n => py_float (PyInt n)
  | OBool b => py_float (PyBool b)
  | OStr s => py_float (PyStr s)
  | OBytes b => py_float (PyBytes b)
  | ONone | OTuple _ | OList _ | OVector _ => Raise TypeError
  | OOther _ _ _ _ as_float => as_float
  end.

(** [float(o)], with the next free address: a float is returned as it
    is, the same object ([PyNumber_Float]); every other argument gives a
    new float object. *)
Definition py_float (o : object) (next : Z) : result float_object * Z :=
  match o with
  | OFloat f => (Ok f, next)
  | _ =>
      match float_value o with
      | Ok f => (Ok (mkFloat next f), next + 1)
      | Raise e => (Raise e, next)
      end
  end.

(** [self.__x = float(x); self.__y = float(y)]: the outcome, [self]
    afterwards and the next free address.  An exception of the second
    conversion leaves [self.__x] assigned. *)
Definition __init__ (self : vector) (x y : object) (next : Z)
  : result unit * vector * Z :=
  match py_float x next with
  | (Raise e, next) => (Raise e, self, next)
  | (Ok fx, next) =>
      let self := mkVector (ob_type self) (Some fx) (_Vector2d__y self) in
      match py_float y next with
      | (Raise e, next) => (Raise e, self, next)
      | (Ok fy, next) =>
          (Ok tt, mkVector (ob_type self) (_Vector2d__x self) (Some fy), next)
      end
  end.

(** [cls( *args )]: [__new__] makes an instance with empty slots and
    [__init__], which takes exactly two arguments, fills it; when
    [__init__] raises, the instance is dropped and the exception
    propagates. *)
Definition call (cls : pyclass) (args : list object) (next : Z)
  : result vector * Z :=
  let self := mkVector cls None None in
  match args with
  | [x; y] =>
      match __init__ self x y next with
      | (Ok _, self, next) => (Ok self, next)
      | (Raise e, _, next) => (Raise e, next)
      end
  | _ => (Raise TypeError, next)
  end.

(** The properties [x] and [y]: reading a slot that was never assigned
    raises [AttributeError]. *)
Definition x (self : vector) : result float_object :=
  match _Vector2d__x self with
  | Some f => Ok f
  | None => Raise AttributeError
  end.

Definition y (self : vector) : result float_object :=
  match _Vector2d__y self with
  | Some f => Ok f
  | None => Raise AttributeError
  end.

(** The items of [(i for i in (self.x, self.y))]: the pair is built when
    the generator is made. *)
Definition __iter__ (self : vector) : result (list float_object) :=
  fx <- x self ;;
  fy <- y self ;;
  Ok [fx; fy].

(** [isinstance(o, Iterable)]. *)
Definition is_Iterable (o : object) : bool :=
  match o with
  | OStr _ | OBytes _ | OTuple _ | OList _ | OVector _ => true
  | ONone | OBool _ | OInt _ | OFloat _ => false
  | OOther iterable _ _ _ _ => iterable
  end.

(** [tuple(o)]. *)
Definition py_tuple (o : object) : result (list object) :=
  match o with
  | OStr s =>
      Ok (map (fun c => OStr (String c EmptyString)) (list_ascii_of_string s))
  | OBytes b => Ok (map (fun c => OInt (Z_of_byte c)) b)
  | OTuple items | OList items => Ok items
  | OVector v => items <- __iter__ v ;; Ok (map OFloat items)
  | OOther _ as_tuple _ _ _ => as_tuple
  | ONone | OBool _ | OInt _ | OFloat _ => Raise TypeError
  end.

(** [PyObject_RichCompareBool(f, o, Py_EQ)] for a float object [f]: the
    same object is equal without a call of [==]; numbers compare by
    value; an object of another type decides, or raises; for the other
    builtin types neither side knows the other and distinct objects are
    unequal. *)
Definition item_eq (f : float_object) (o : object) : result bool :=
  match o with
  | OFloat g => Ok (same_object f g || IEEE.eqb (ob_fval f) (ob_fval g))
  | OInt n => Ok (IEEE.eqb_Z (ob_fval f) n)
  | OBool b => Ok (IEEE.eqb_Z (ob_fval f) (if b then 1 else 0))
  | OOther _ _ eq_float _ _ => eq_float f
  | ONone | OStr _ | OBytes _ | OTuple _ | OList _ | OVector _ => Ok false
  end.

(** [t == u] for a tuple [t] of float objects and a tuple [u]
    ([tuplerichcompare]): the items are compared in order up to the first
    pair that differs, and an exception of a comparison propagates; when
    no pair differs, the lengths decide. *)
Fixpoint tuple_eq (t : list float_object) (u : list object) : result bool :=
  match t, u with
  | [], [] => Ok true
  | f :: t', o :: u' =>
      k <- item_eq f o ;;
      if k then tuple_eq t' u' else Ok false
  | _, _ => Ok false
  end.

Definition __eq__ (self : vector) (other : object) : result eq_result :=
  if negb (is_Iterable other) then Ok NotImplemented
  else
    t <- __iter__ self ;;
    u <- py_tuple other ;;
    b <- tuple_eq t u ;;
    Ok (Returned b).

(** [other.__eq__(self)], the reflected method of [self == other]: that
    of a vector is [__eq__]; the builtin types do not know a vector. *)
Definition reflected (self : vector) (other : object) : result eq_result :=
  match other with
  | OVector w => __eq__ w (OVector self)
  | OOther _ _ _ reflected_eq _ => reflected_eq self
  | _ => Ok NotImplemented
  end.

(** The type of [other] is a proper subclass of the type of [self]. *)
Definition is_proper_subclass (self : vector) (other : object) : bool :=
  match other with
  | OVector w =>
      match ob_type self, ob_type w with
      | Vector2d, ShortVector2d => true
      | _, _ => false
      end
  | _ => false
  end.

(** [self == other] ([do_richcompare]): the reflected method goes first
    when [other] is of a proper subclass; a method that returns
    [NotImplemented] passes to the other one; when both do, the two
    objects, which are distinct, are unequal. *)
Definition eq_op (self : vector) (other : object) : result bool :=
  let first := is_proper_subclass self other in
  r <- (if first then reflected self other else __eq__ self other) ;;
  match r with
  | Returned b => Ok b
  | NotImplemented =>
      r <- (if first then __eq__ self other else reflected self other) ;;
      match r with
      | Returned b => Ok b
      | NotImplemented => Ok false
      end
  end.

(** [_Py_HashPointer]: the address rotated right by four bits; [-1] is
    reserved. *)
Definition hash_pointer (p : Z) : Z :=
  let h := s64 (Z.lor (Z.shiftr (u64 p) 4) (Z.shiftl (u64 p) 60)) in
  if h =? -1 then -2 else h.

(** [hash(f)] for a float object: by its value, and by its address when
    it is a NaN. *)
Definition hash_float_object (f : float_object) : Z :=
  match hash_float (ob_fval f) with
  | Hash h => h
  | HashOfIdentity => hash_pointer (ob_addr f)
  end.

(** [hash((self.x, self.y))]. *)
Definition __hash__ (self : vector) : result Z :=
  fx <- x self ;;
  fy <- y self ;;
  Ok (tuplehash_lanes [hash_float_object fx; hash_float_object fy]).

End Obj.

(** ** Notions used to state the properties *)

(** The exact value of a finite double, in units of [2^-1074]. *)
Definition ulps (f : float) : option Z :=
  match IEEE.fval f with
  | S754_zero _ => Some 0
  | S754_finite s m e => Some ((if s then Zneg m else Zpos m) * 2 ^ (e + 1074))
  | _ => None
  end.

(** [a] and [b] agree within a relative tolerance of [1e-6]:
    [|a - b| <= 1e-6 * max(|a|, |b|)] in exact arithmetic.  Values that
    are equal (infinities too) are close; a NaN is close to nothing. *)
Definition isclose (a b : float) : bool :=
  IEEE.eqb a b
  || match ulps a, ulps b with
     | Some u, Some v =>
         10 ^ 6 * Z.abs (u - v) <=? Z.max (Z.abs u) (Z.abs v)
     | _, _ => false
     end.

(** The double is zero or its magnitude lies in the range of the normal
    single-precision numbers, from [2^-126] to [(2^24 - 1) * 2^104]. *)
Definition in_single_range (f : float) : bool :=
  match ulps f with
  | Some u =>
      (u =? 0)
      || ((2 ^ 948 <=? Z.abs u) && (Z.abs u <=? (2 ^ 24 - 1) * 2 ^ 1178))
  | None => false
  end.

(** A float at the width that the type code of a class names: itself
    for ['d'], rounded to single precision for ['f']. *)
Definition at_typecode_width (cls : pyclass) (f : float) : float :=
  match cls with
  | Vector2d => f
  | ShortVector2d => double_of_single (single_of_double f)
  end.

(** The item that [array(typecode, ...)] stores for a float, as bytes. *)
Definition packed_item (order : byteorder) (cls : pyclass) (f : float)
  : list byte :=
  match cls with
  | Vector2d => int_to_bytes order 8 (IEEE.bits_of 53 1024 f)
  | ShortVector2d =>
      int_to_bytes order 4 (IEEE.bits_of 24 128 (single_of_double f))
  end.

(** The float that a [memoryview] cast to the type code of [cls] reads
    from the bytes of one item. *)
Definition unpacked_item (order : byteorder) (cls : pyclass) (bs : list byte)
  : float :=
  match cls with
  | Vector2d => IEEE.of_bits 53 1024 (int_from_bytes order bs)
  | ShortVector2d =>
      double_of_single (IEEE.of_bits 24 128 (int_from_bytes order bs))
  end.

(** Bytes per item for the type code of a class. *)
Definition item_width (cls : pyclass) : nat :=
  match cls with
  | Vector2d => 8
  | ShortVector2d => 4
  end.

(** Some doubles. *)
Definition float_of_Z (n : Z) : float := IEEE.of_Z 53 1024 n.
Definition float_of_decimal (n k : Z) : float :=
  IEEE.of_decimal 53 1024 false n k.

(** A vector as construction returns it: both slots assigned. *)
Definition constructed (cls : pyclass) (fx fy : Obj.float_object)
  : Obj.vector :=
  Obj.mkVector cls (Some fx) (Some fy).

(** A number: an [int], a [bool] or a [float]; and the value it has. *)
Definition is_number (o : Obj.object) : bool :=
  match o with
  | Obj.OBool _ | Obj.OInt _ | Obj.OFloat _ => true
  | _ => false
  end.

Definition number_value (o : Obj.object) : value :=
  match o with
  | Obj.OBool b => PyBool b
  | Obj.OInt n => PyInt n
  | Obj.OFloat f => PyFloat (Obj.ob_fval f)
  | _ => PyNone
  end.

(** The coordinate [f] and the item [o] are the same object, or [o] is
    a number that [f] equals ([==]). *)
Definition same_or_equal (f : Obj.float_object) (o : Obj.object) : Prop :=
  o = Obj.OFloat f \/ float_eq (Obj.ob_fval f) (number_value o) = true.

(** The operand of [==] seen as a pair: a vector with its coordinates,
    or a tuple or a list of two numbers. *)
Inductive pair_of : Obj.object -> Obj.object -> Obj.object -> Prop :=
| pair_of_vector (cls : pyclass) (gx gy : Obj.float_object) :
    pair_of (Obj.OVector (constructed cls gx gy)) (Obj.OFloat gx) (Obj.OFloat gy)
| pair_of_tuple (a b : Obj.object) :
    is_number a = true -> is_number b = true -> pair_of (Obj.OTuple [a; b]) a b
| pair_of_list (a b : Obj.object) :
    is_number a = true -> is_number b = true -> pair_of (Obj.OList [a; b]) a b.

(** The value of a vector object whose slots are assigned, and of an
    object of a scalar builtin type: what the value layer sees of them. *)
Definition value_of_vector (v : Obj.vector) : option instance :=
  match Obj._Vector2d__x v, Obj._Vector2d__y v with
  | Some fx, Some fy =>
      Some (mkInstance (Obj.ob_type v) (Obj.ob_fval fx) (Obj.ob_fval fy))
  | _, _ => None
  end.

Definition scalar_value (o : Obj.object) : option value :=
  match o with
  | Obj.ONone => Some PyNone
  | Obj.OBool b => Some (PyBool b)
  | Obj.OInt n => Some (PyInt n)
  | Obj.OFloat f => Some (PyFloat (Obj.ob_fval f))
  | Obj.OStr s => Some (PyStr s)
  | Obj.OBytes b => Some (PyBytes b)
  | _ => None
  end.

(** An object of a builtin type or a vector: its comparison with a
    float cannot raise. *)
Definition plain (o : Obj.object) : bool :=
  match o with
  | Obj.OOther _ _ _ _ _ => false
  | _ => true
  end.

(** Some objects: float objects that hold a NaN, 0.0, 1.0 and 2.0; a
    generator whose first item raises [ValueError], such as
    [(float(s) for s in ['x'])]; and an object whose comparison with a
    float raises [ValueError]. *)
Definition nan_object : Obj.float_object := Obj.mkFloat 0 IEEE.B_nan.
Definition zero_object : Obj.float_object := Obj.mkFloat 1 (float_of_Z 0).
Definition one_object : Obj.float_object := Obj.mkFloat 2 (float_of_Z 1).
Definition two_object : Obj.float_object := Obj.mkFloat 3 (float_of_Z 2).

Definition raising_generator : Obj.object :=
  Obj.OOther true (Raise ValueError) (fun _ => Ok false)
             (fun _ => Ok NotImplemented) (Raise TypeError).

Definition raising_item : Obj.object :=
  Obj.OOther false (Raise TypeError) (fun _ => Raise ValueError)
             (fun _ => Ok NotImplemented) (Raise TypeError).

(** The exception that [float(v)] raises, when it raises one: by the
    kind of [v]. *)
Definition conversion_error (v : value) : exc :=
  match v with
  | PyStr _ | PyBytes _ => ValueError
  | PyInt _ | PyBool _ => OverflowError
  | _ => TypeError
  end.

(** The doubles [1.4142135623730951] and [0.7853981633974483]: the
    square root of two and a quarter of pi, correctly rounded. *)
Definition sqrt2 : float := float_of_decimal 14142135623730951 (-16).
Definition quarter_pi : float := float_of_decimal 7853981633974483 (-16).

(** ** Notions used in the proofs about rounding *)

(** Where a remainder [rem] of a division by [d] lies in the interval
    between two consecutive quotients. *)
Definition loc_of_rem (rem d : Z) : location :=
  if rem =? 0 then loc_Exact else loc_Inexact (Z.compare (2 * rem) d).

(** The second half of [binary_round_aux]: the rounded significand [q]
    at exponent [e1] is put in canonical form, and overflows to an
    infinity. *)
Definition finish (prec emax : Z) (s : bool) (q e1 : Z) : spec_float :=
  let '(mrs, e2) := shr_fexp prec emax q e1 loc_Exact in
  match shr_m mrs with
  | 0 => S754_zero s
  | Zpos p =>
      if e2 <=? emax - prec then S754_finite s p e2 else S754_infinity s
  | Zneg _ => S754_nan
  end.

(* ================================================================= *)
(** * Part II: properties *)
(* ================================================================= *)

(** ** Binary digits and rounding *)

Lemma digits2_pos_size m : digits2_pos m = Pos.size m.
Proof. induction m; simpl; congruence. Qed.

Lemma Zdigits2_log2 m : 0 < m -> Zdigits2 m = Z.log2 m + 1.
Proof.
  destruct m as [|p|p]; try lia. intros _.
  destruct p; simpl; rewrite ?digits2_pos_size; lia.
Qed.

Lemma Zdigits2_nonneg m : 0 <= Zdigits2 m.
Proof. destruct m; simpl; lia. Qed.

Lemma Zdigits2_bounds m :
  0 < m -> 2 ^ (Zdigits2 m - 1) <= m < 2 ^ Zdigits2 m.
Proof.
  intros H. rewrite (Zdigits2_log2 m H).
  replace (Z.log2 m + 1 - 1) with (Z.log2 m) by lia.
  apply (Z.log2_spec m H).
Qed.

Lemma Zdigits2_unique m d :
  2 ^ (d - 1) <= m < 2 ^ d -> 0 < d -> Zdigits2 m = d.
Proof.
  intros H Hd.
  assert (0 < m) by (pose proof (Z.pow_pos_nonneg 2 (d - 1)); lia).
  rewrite Zdigits2_log2 by assumption.
  rewrite (Z.log2_unique m (d - 1)); try lia.
  replace (Z.succ (d - 1)) with d by lia. exact H.
Qed.

Lemma Zdigits2_le a b : 0 <= a <= b -> Zdigits2 a <= Zdigits2 b.
Proof.
  intros [Ha Hab].
  destruct (Z.eq_dec a 0) as [->|Hn]; [apply Zdigits2_nonneg|].
  rewrite !Zdigits2_log2 by lia.
  pose proof (Z.log2_le_mono a b Hab). lia.
Qed.

Lemma Zdigits2_div_pow2 m n :
  0 <= m -> 0 <= n -> Zdigits2 (m / 2 ^ n) = Z.max 0 (Zdigits2 m - n).
Proof.
  intros Hm Hn.
  destruct (Z.eq_dec m 0) as [->|Hm0].
  { rewrite Z.div_0_l by (pose proof (Z.pow_pos_nonneg 2 n); lia). simpl. lia. }
  pose proof (Zdigits2_bounds m ltac:(lia)) as [Hlo Hhi].
  pose proof (Zdigits2_nonneg m) as Hd.
  assert (0 < 2 ^ n) as Hp by (apply Z.pow_pos_nonneg; lia).
  destruct (Z_le_gt_dec (Zdigits2 m) n) as [Hle|Hgt].
  - rewrite Z.div_small.
    + simpl. lia.
    + split; [lia|]. eapply Z.lt_le_trans; [exact Hhi|].
      apply Z.pow_le_mono_r; lia.
  - rewrite Z.max_r by lia.
    apply Zdigits2_unique; [|lia]. split.
    + apply Z.div_le_lower_bound; [lia|].
      rewrite Z.mul_comm, <- Z.pow_add_r by lia.
      replace (Zdigits2 m - n - 1 + n) with (Zdigits2 m - 1) by lia. exact Hlo.
    + apply Z.div_lt_upper_bound; [lia|].
      rewrite <- Z.pow_add_r by lia.
      replace (n + (Zdigits2 m - n)) with (Zdigits2 m) by lia. exact Hhi.
Qed.

Lemma shr_1_m mrs : 0 <= shr_m mrs -> shr_m (shr_1 mrs) = shr_m mrs / 2.
Proof.
  destruct mrs as [m r s]; simpl. intros Hm.
  destruct m as [|[p|p|]|]; simpl; try lia; try reflexivity.
  - apply Z.div_unique with 1; lia.
  - apply Z.div_unique with 0; lia.
Qed.

Lemma pow2_pos n : 0 <= n -> 0 < 2 ^ n.
Proof. intros; apply Z.pow_pos_nonneg; lia. Qed.

Lemma div_div_pow2 m a b :
  0 <= a -> 0 <= b -> m / 2 ^ a / 2 ^ b = m / 2 ^ (a + b).
Proof.
  intros Ha Hb. pose proof (pow2_pos a Ha). pose proof (pow2_pos b Hb).
  rewrite Z.div_div by lia. rewrite Z.pow_add_r by lia. reflexivity.
Qed.

Lemma iter_pos_shr_m n : forall mrs,
  0 <= shr_m mrs ->
  shr_m (iter_pos shr_1 n mrs) = shr_m mrs / 2 ^ Zpos n.
Proof.
  assert (Hdd : forall m a, 0 <= m -> 0 <= a -> 0 <= m / 2 ^ a).
  { intros. apply Z.div_pos; [lia|apply pow2_pos; lia]. }
  induction n as [n IH|n IH|]; intros mrs Hm; simpl iter_pos.
  - assert (0 <= shr_m (shr_1 mrs)) as H1
        by (rewrite shr_1_m by lia; apply Z.div_pos; lia).
    rewrite IH by (rewrite IH by lia; apply Hdd; lia).
    rewrite IH by lia. rewrite shr_1_m by lia.
    change 2 with (2 ^ 1) at 1.
    rewrite !div_div_pow2 by lia.
    f_equal. f_equal. lia.
  - rewrite IH by (rewrite IH by lia; apply Hdd; lia).
    rewrite IH by lia.
    rewrite div_div_pow2 by lia.
    f_equal. f_equal. lia.
  - rewrite shr_1_m by lia. reflexivity.
Qed.

Lemma shr_spec mrs e n :
  0 <= shr_m mrs -> 0 <= n ->
  shr_m (fst (shr mrs e n)) = shr_m mrs / 2 ^ n /\ snd (shr mrs e n) = e + n.
Proof.
  intros Hm Hn. unfold shr. destruct n as [|p|p]; simpl fst; simpl snd.
  - rewrite Z.div_1_r. lia.
  - rewrite iter_pos_shr_m by lia. auto.
  - lia.
Qed.

Section Rounding.
Variables prec emax : Z.
Hypothesis prec_gt_0 : 0 < prec.
Hypothesis prec_lt_emax : prec < emax.

Let fexp := SpecFloat.fexp prec emax.

Lemma fexp_le a b : a <= b -> fexp a <= fexp b.
Proof. unfold fexp, SpecFloat.fexp. lia. Qed.

Lemma shr_fexp_canonical m e l :
  0 <= m -> e <= fexp (Zdigits2 m + e) ->
  0 <= shr_m (fst (shr_fexp prec emax m e l)) /\
  shr_m (fst (shr_fexp prec emax m e l)) = m / 2 ^ (fexp (Zdigits2 m + e) - e) /\
  snd (shr_fexp prec emax m e l) = fexp (Zdigits2 m + e) /\
  snd (shr_fexp prec emax m e l) =
    fexp (Zdigits2 (shr_m (fst (shr_fexp prec emax m e l)))
          + snd (shr_fexp prec emax m e l)).
Proof.
  intros Hm He. unfold shr_fexp. fold fexp.
  set (n := fexp (Zdigits2 m + e) - e).
  assert (Hsm : shr_m (shr_record_of_loc m l) = m) by (destruct l as [|[]]; reflexivity).
  assert (Hn : 0 <= n) by (unfold n; lia).
  destruct (shr_spec (shr_record_of_loc m l) e n ltac:(lia) Hn) as [H1 H2].
  rewrite H1, H2, Hsm.
  assert (0 <= m / 2 ^ n) by (apply Z.div_pos; [lia|apply pow2_pos; lia]).
  repeat split; try lia.
  rewrite Zdigits2_div_pow2 by lia.
  pose proof (Zdigits2_nonneg m).
  unfold n in *. unfold fexp, SpecFloat.fexp, emin in *. lia.
Qed.

Lemma round_nearest_even_range m l :
  round_nearest_even m l = m \/ round_nearest_even m l = m + 1.
Proof.
  destruct l as [|[]]; simpl; auto. destruct (Z.even m); auto.
Qed.

Lemma binary_round_aux_valid sx mx ex lx :
  0 <= mx -> ex <= fexp (Zdigits2 mx + ex) ->
  valid_binary prec emax (binary_round_aux prec emax sx mx ex lx) = true.
Proof.
  intros Hm He. unfold binary_round_aux.
  destruct (shr_fexp_canonical mx ex lx Hm He) as (H0 & _ & _ & Hc).
  destruct (shr_fexp prec emax mx ex lx) as [mrs' e']. simpl in H0, Hc.
  set (m2 := round_nearest_even (shr_m mrs') (loc_of_shr_record mrs')).
  assert (Hm2 : shr_m mrs' <= m2 <= shr_m mrs' + 1).
  { unfold m2. destruct (round_nearest_even_range (shr_m mrs') (loc_of_shr_record mrs')); lia. }
  assert (He2 : e' <= fexp (Zdigits2 m2 + e')).
  { rewrite Hc at 1. apply fexp_le.
    pose proof (Zdigits2_le (shr_m mrs') m2). lia. }
  destruct (shr_fexp_canonical m2 e' loc_Exact ltac:(lia) He2) as (H3 & _ & _ & Hc2).
  destruct (shr_fexp prec emax m2 e' loc_Exact) as [mrs'' e'']. simpl in H3, Hc2.
  destruct (shr_m mrs'') as [|p|p] eqn:Ep; try reflexivity.
  destruct (Z.leb e'' (emax - prec)) eqn:El; try reflexivity.
  cbn [valid_binary]. unfold bounded, canonical_mantissa.
  change (Zdigits2 (Zpos p)) with (Zpos (digits2_pos p)) in Hc2.
  fold fexp. rewrite <- Hc2, Z.eqb_refl, El. reflexivity.
Qed.

Lemma iter_xO_pow m d : Zpos (Pos.iter xO m d) = Zpos m * 2 ^ Zpos d.
Proof.
  induction d using Pos.peano_ind.
  - simpl. lia.
  - rewrite Pos.iter_succ, Pos2Z.inj_xO, IHd, Pos2Z.inj_succ, Z.pow_succ_r by lia. lia.
Qed.

Lemma Zdigits2_mul_pow2 m d :
  0 < m -> 0 <= d -> Zdigits2 (m * 2 ^ d) = Zdigits2 m + d.
Proof.
  intros Hm Hd. pose proof (Zdigits2_bounds m Hm) as [Hlo Hhi].
  pose proof (Zdigits2_nonneg m).
  assert (0 < Zdigits2 m) by (rewrite Zdigits2_log2 by lia; pose proof (Z.log2_nonneg m); lia).
  assert (0 < 2 ^ d) by (apply Z.pow_pos_nonneg; lia).
  apply Zdigits2_unique; [|lia]. split.
  - replace (Zdigits2 m + d - 1) with (Zdigits2 m - 1 + d) by lia.
    rewrite Z.pow_add_r by lia. nia.
  - rewrite Z.pow_add_r by lia. nia.
Qed.

Lemma shl_align_spec mx ex ex' :
  let '(mz, ez) := shl_align mx ex ex' in
  ez = Z.min ex ex' /\ Zpos mz = Zpos mx * 2 ^ (ex - ez).
Proof.
  unfold shl_align. destruct (ex' - ex) as [|d|d] eqn:E.
  - split; [lia|]. replace (ex - ex) with 0 by lia. lia.
  - split; [lia|]. replace (ex - ex) with 0 by lia. lia.
  - split; [lia|]. rewrite iter_xO_pow. f_equal. f_equal. lia.
Qed.

Lemma binary_round_valid sx mx ex :
  valid_binary prec emax (binary_round prec emax sx mx ex) = true.
Proof.
  unfold binary_round. fold fexp.
  pose proof (shl_align_spec mx ex (fexp (Zpos (digits2_pos mx) + ex))) as H.
  destruct (shl_align mx ex (fexp (Zpos (digits2_pos mx) + ex))) as [mz ez].
  destruct H as [He Hz].
  apply binary_round_aux_valid; [lia|].
  rewrite Hz, Zdigits2_mul_pow2 by lia.
  change (Zdigits2 (Zpos mx)) with (Zpos (digits2_pos mx)).
  replace (Z.pos (digits2_pos mx) + (ex - ez) + ez) with (Z.pos (digits2_pos mx) + ex) by lia.
  lia.
Qed.

Lemma binary_normalize_valid m e szero :
  valid_binary prec emax (binary_normalize prec emax m e szero) = true.
Proof.
  destruct m; simpl; [reflexivity| |]; apply binary_round_valid.
Qed.

End Rounding.

(** ** Packed floats *)

Lemma binary_ext prec emax (a b : IEEE.binary prec emax) :
  IEEE.fval a = IEEE.fval b -> a = b.
Proof.
  destruct a as [fa Ha], b as [fb Hb]; simpl. intros ->.
  f_equal. apply UIP_dec. apply bool_dec.
Qed.

Lemma fval_pack prec emax f :
  valid_binary prec emax f = true ->
  IEEE.fval (IEEE.pack prec emax f) = f.
Proof.
  intros H. unfold IEEE.pack.
  generalize (eq_refl (valid_binary prec emax f)).
  generalize (valid_binary prec emax f) at 2 3.
  intros b. destruct b; intros E; [reflexivity|congruence].
Qed.

Lemma pack_fval prec emax (a : IEEE.binary prec emax) :
  IEEE.pack prec emax (IEEE.fval a) = a.
Proof. apply binary_ext. apply fval_pack. apply IEEE.fvalid. Qed.

Lemma fval_round prec emax s m e :
  0 < prec -> prec < emax ->
  IEEE.fval (IEEE.round prec emax s m e) = binary_round prec emax s m e.
Proof.
  intros. apply fval_pack. apply binary_round_valid; assumption.
Qed.

Lemma fval_of_Z prec emax n :
  0 < prec -> prec < emax ->
  IEEE.fval (IEEE.of_Z prec emax n) = binary_normalize prec emax n 0 false.
Proof.
  intros. apply fval_pack. apply binary_normalize_valid; assumption.
Qed.

Section Division.
Variables prec emax : Z.
Hypothesis prec_gt_0 : 0 < prec.
Hypothesis prec_lt_emax : prec < emax.

Lemma Zdigits2_pow2 k : 0 <= k -> Zdigits2 (2 ^ k) = k + 1.
Proof.
  intros Hk. apply Zdigits2_unique; [|lia].
  replace (k + 1 - 1) with k by lia. split; [lia|].
  apply Z.pow_lt_mono_r; lia.
Qed.

Lemma SFdiv_core_binary_canonical m1 e1 m2 e2 :
  0 < m1 -> 0 < m2 ->
  let '(q, e, l) := SFdiv_core_binary prec emax m1 e1 m2 e2 in
  0 <= q /\ e <= SpecFloat.fexp prec emax (Zdigits2 q + e).
Proof.
  intros H1 H2. unfold SFdiv_core_binary.
  set (d1 := Zdigits2 m1). set (d2 := Zdigits2 m2).
  set (e := Z.min (SpecFloat.fexp prec emax (d1 + e1 - (d2 + e2))) (e1 - e2)).
  set (s := e1 - e2 - e).
  assert (Hs : 0 <= s) by (unfold s, e; lia).
  set (m := match s with Z.pos _ => Z.shiftl m1 s | 0 => m1 | Z.neg _ => 0 end).
  assert (Hm : m = m1 * 2 ^ s).
  { unfold m. destruct s as [|p|p] eqn:Es.
    - simpl. lia.
    - rewrite Z.shiftl_mul_pow2 by lia. reflexivity.
    - lia. }
  assert (Hq : Z.div_eucl m m2 = (m / m2, m mod m2)).
  { unfold Z.div, Z.modulo. destruct (Z.div_eucl m m2); reflexivity. }
  rewrite Hq.
  pose proof (pow2_pos s Hs) as Hp.
  assert (0 <= m / m2) as Hq0 by (apply Z.div_pos; nia).
  split; [exact Hq0|].
  assert (Hd : d1 + s - d2 <= Zdigits2 (m / m2)).
  { destruct (Z_lt_le_dec (d1 + s - d2 - 1) 0) as [Hneg|Hpos].
    - pose proof (Zdigits2_nonneg (m / m2)). lia.
    - set (k := d1 + s - d2 - 1) in *.
      assert (2 ^ k <= m / m2).
      { apply Z.div_le_lower_bound; [lia|].
        pose proof (Zdigits2_bounds m1 H1) as [Hlo1 _].
        pose proof (Zdigits2_bounds m2 H2) as [_ Hhi2].
        fold d1 in Hlo1. fold d2 in Hhi2.
        pose proof (Zdigits2_nonneg m2) as Hd2. fold d2 in Hd2.
        assert (0 < d1).
        { unfold d1. rewrite Zdigits2_log2 by lia.
          pose proof (Z.log2_nonneg m1). lia. }
        pose proof (pow2_pos k Hpos).
        assert (2 ^ d2 * 2 ^ k = 2 ^ (d1 - 1) * 2 ^ s).
        { rewrite <- !Z.pow_add_r by lia. f_equal. unfold k. lia. }
        rewrite Hm. nia. }
      pose proof (Zdigits2_le (2 ^ k) (m / m2)) as Hle.
      rewrite Zdigits2_pow2 in Hle by lia.
      pose proof (pow2_pos k Hpos). unfold k in *. lia. }
  pose proof (fexp_le prec emax (d1 + e1 - (d2 + e2)) (Zdigits2 (m / m2) + e)) as Hf.
  unfold s in Hd.
  assert (e <= SpecFloat.fexp prec emax (d1 + e1 - (d2 + e2))) by (unfold e; lia).
  lia.
Qed.

Lemma fval_of_ratio s n d :
  IEEE.fval (IEEE.of_ratio prec emax s n d) =
  (let '(q, e, l) := SFdiv_core_binary prec emax (Zpos n) 0 (Zpos d) 0 in
   binary_round_aux prec emax s q e l).
Proof.
  unfold IEEE.of_ratio.
  pose proof (SFdiv_core_binary_canonical (Zpos n) 0 (Zpos d) 0 ltac:(lia) ltac:(lia)) as H.
  destruct (SFdiv_core_binary prec emax (Zpos n) 0 (Zpos d) 0) as [[q e] l].
  destruct H as [Hq He].
  apply fval_pack. apply binary_round_aux_valid; assumption.
Qed.

End Division.

(** ** The interchange encoding *)

Section BitsProps.
Variables prec emax : Z.
Hypothesis prec_gt_1 : 1 < prec.
Hypothesis prec_lt_emax : prec < emax.
Hypothesis emax_pow2 : 2 ^ Z.log2 emax = emax.

Let mw := IEEE.mw prec.
Let ew := IEEE.ew emax.

Lemma mw_pos : 0 < mw.
Proof. unfold mw, IEEE.mw. lia. Qed.

Lemma ew_pos : 0 < ew.
Proof. unfold ew, IEEE.ew. pose proof (Z.log2_nonneg emax). lia. Qed.

Lemma pow2_ew : 2 ^ ew = 2 * emax.
Proof.
  unfold ew, IEEE.ew. rewrite Z.pow_add_r by (try apply Z.log2_nonneg; lia).
  rewrite emax_pow2. lia.
Qed.

Lemma split_join s m e :
  0 <= m < 2 ^ mw -> 0 <= e < 2 ^ ew ->
  let n := IEEE.join_bits prec emax s m e in
  (2 ^ (mw + ew) <=? n) = s /\
  n mod 2 ^ mw = m /\
  (n / 2 ^ mw) mod 2 ^ ew = e /\
  0 <= n < 2 ^ (mw + ew + 1).
Proof.
  intros Hm He. unfold IEEE.join_bits. fold mw ew.
  pose proof mw_pos. pose proof ew_pos.
  pose proof (pow2_pos mw ltac:(lia)) as Hpm.
  pose proof (pow2_pos ew ltac:(lia)) as Hpe.
  set (S := if s then 2 ^ ew else 0).
  assert (HS : S = 0 \/ S = 2 ^ ew) by (unfold S; destruct s; auto).
  cbv zeta.
  assert (Hmod : ((S + e) * 2 ^ mw + m) mod 2 ^ mw = m).
  { rewrite Z.add_comm, Z.mod_add by lia. apply Z.mod_small; lia. }
  assert (Hdiv : ((S + e) * 2 ^ mw + m) / 2 ^ mw = S + e).
  { rewrite Z.add_comm, Z.div_add by lia. rewrite Z.div_small by lia. lia. }
  rewrite Hmod, Hdiv.
  rewrite !Z.pow_add_r by lia. change (2 ^ 1) with 2.
  repeat split.
  - destruct s; unfold S.
    + apply Z.leb_le. nia.
    + apply Z.leb_gt. nia.
  - destruct HS as [-> | ->].
    + apply Z.mod_small; lia.
    + rewrite Z.add_comm. rewrite <- (Z.mul_1_l (2 ^ ew)) at 1.
      rewrite Z.mod_add by lia. apply Z.mod_small; lia.
  - nia.
  - nia.
Qed.

Lemma valid_finite_cases s m e :
  valid_binary prec emax (S754_finite s m e) = true ->
  e <= emax - prec /\
  ((2 ^ mw <= Zpos m < 2 ^ (mw + 1) /\ emin prec emax <= e) \/
   (Zpos m < 2 ^ mw /\ e = emin prec emax)).
Proof.
  simpl. unfold bounded, canonical_mantissa, fexp.
  intros H. apply andb_prop in H. destruct H as [Hc Hb].
  apply Z.eqb_eq in Hc. apply Z.leb_le in Hb. split; [exact Hb|].
  pose proof (Zdigits2_bounds (Zpos m) ltac:(lia)) as [Hlo Hhi].
  change (Zdigits2 (Zpos m)) with (Zpos (digits2_pos m)) in *.
  set (d := Zpos (digits2_pos m)) in *.
  unfold mw, IEEE.mw.
  destruct (Z_lt_le_dec d prec) as [Hlt|Hge].
  - right. split; [|lia].
    eapply Z.lt_le_trans; [exact Hhi|]. apply Z.pow_le_mono_r; lia.
  - left. assert (d = prec) by lia.
    replace (prec - 1 + 1) with prec by lia.
    replace (prec - 1) with (d - 1) by lia.
    split; [|lia]. split; [exact Hlo|]. replace prec with d by lia. exact Hhi.
Qed.

Lemma spec_of_bits_of_spec f :
  valid_binary prec emax f = true ->
  IEEE.spec_of_bits prec emax (IEEE.bits_of_spec prec emax f) = f.
Proof.
  intros Hv.
  pose proof mw_pos as Hmw. pose proof ew_pos as Hew. pose proof pow2_ew as Hpe.
  pose proof (pow2_pos mw ltac:(lia)) as Hpm.
  assert (Hhalf : 0 < 2 ^ (mw - 1) < 2 ^ mw).
  { split; [apply pow2_pos; lia|]. apply Z.pow_lt_mono_r; lia. }
  unfold IEEE.spec_of_bits. fold mw ew.
  destruct f as [s|s| |s m e]; unfold IEEE.bits_of_spec; fold mw ew.
  - destruct (split_join s 0 0 ltac:(lia) ltac:(lia)) as (Hs & Hm & He & _).
    cbv zeta in *. fold mw ew in Hs, Hm, He. rewrite Hs, Hm, He. reflexivity.
  - destruct (split_join s 0 (2 ^ ew - 1) ltac:(lia) ltac:(lia)) as (Hs & Hm & He & _).
    cbv zeta in *. fold mw ew in Hs, Hm, He. rewrite Hs, Hm, He.
    replace (2 ^ ew - 1 =? 0) with false by (symmetry; apply Z.eqb_neq; lia).
    rewrite Z.eqb_refl. reflexivity.
  - destruct (split_join false (2 ^ (mw - 1)) (2 ^ ew - 1) ltac:(lia) ltac:(lia))
      as (Hs & Hm & He & _).
    cbv zeta in *. fold mw ew in Hs, Hm, He. rewrite Hm, He.
    replace (2 ^ ew - 1 =? 0) with false by (symmetry; apply Z.eqb_neq; lia).
    rewrite Z.eqb_refl.
    replace (2 ^ (mw - 1) =? 0) with false by (symmetry; apply Z.eqb_neq; lia).
    reflexivity.
  - destruct (valid_finite_cases s m e Hv) as [Hb [[Hm He]|[Hm He]]].
    + fold mw in Hm. rewrite Z.pow_add_r in Hm by lia. change (2 ^ 1) with 2 in Hm.
      replace (2 ^ mw <=? Z.pos m) with true by (symmetry; apply Z.leb_le; lia).
      unfold emin in *.
      destruct (split_join s (Z.pos m - 2 ^ mw) (e - (3 - emax - prec) + 1)
                  ltac:(lia) ltac:(lia)) as (Hs & Hm' & He' & _).
      cbv zeta in *. fold mw ew in Hs, Hm', He'. rewrite Hs, Hm', He'.
      replace (e - (3 - emax - prec) + 1 =? 0) with false
        by (symmetry; apply Z.eqb_neq; lia).
      replace (e - (3 - emax - prec) + 1 =? 2 ^ ew - 1) with false
        by (symmetry; apply Z.eqb_neq; lia).
      replace (Z.pos m - 2 ^ mw + 2 ^ mw) with (Z.pos m) by lia.
      f_equal. lia.
    + fold mw in Hm.
      replace (2 ^ mw <=? Z.pos m) with false by (symmetry; apply Z.leb_gt; lia).
      destruct (split_join s (Z.pos m) 0 ltac:(lia) ltac:(lia)) as (Hs & Hm' & He' & _).
      cbv zeta in *. fold mw ew in Hs, Hm', He'. rewrite Hs, Hm', He'.
      simpl. rewrite He. reflexivity.
Qed.

Lemma bits_of_spec_range f :
  valid_binary prec emax f = true ->
  0 <= IEEE.bits_of_spec prec emax f < 2 ^ (mw + ew + 1).
Proof.
  intros Hv.
  pose proof mw_pos as Hmw. pose proof ew_pos as Hew. pose proof pow2_ew as Hpe.
  pose proof (pow2_pos mw ltac:(lia)) as Hpm.
  assert (Hhalf : 0 < 2 ^ (mw - 1) < 2 ^ mw).
  { split; [apply pow2_pos; lia|]. apply Z.pow_lt_mono_r; lia. }
  destruct f as [s|s| |s m e]; unfold IEEE.bits_of_spec; fold mw ew.
  - apply (split_join s 0 0); lia.
  - apply (split_join s 0 (2 ^ ew - 1)); lia.
  - apply (split_join false (2 ^ (mw - 1)) (2 ^ ew - 1)); lia.
  - destruct (valid_finite_cases s m e Hv) as [Hb [[Hm He]|[Hm He]]].
    + fold mw in Hm. rewrite Z.pow_add_r in Hm by lia. change (2 ^ 1) with 2 in Hm.
      replace (2 ^ mw <=? Z.pos m) with true by (symmetry; apply Z.leb_le; lia).
      unfold emin in *.
      apply (split_join s (Z.pos m - 2 ^ mw) (e - (3 - emax - prec) + 1)); lia.
    + fold mw in Hm.
      replace (2 ^ mw <=? Z.pos m) with false by (symmetry; apply Z.leb_gt; lia).
      apply (split_join s (Z.pos m) 0); lia.
Qed.

Lemma spec_of_bits_valid n :
  valid_binary prec emax (IEEE.spec_of_bits prec emax n) = true.
Proof.
  pose proof mw_pos as Hmw. pose proof ew_pos as Hew. pose proof pow2_ew as Hpe.
  pose proof (pow2_pos mw ltac:(lia)) as Hpm.
  pose proof (pow2_pos ew ltac:(lia)) as Hpew.
  unfold IEEE.spec_of_bits. fold mw ew.
  pose proof (Z.mod_pos_bound n (2 ^ mw) Hpm) as Hm.
  pose proof (Z.mod_pos_bound (n / 2 ^ mw) (2 ^ ew) Hpew) as He.
  set (m := n mod 2 ^ mw) in *. set (e := (n / 2 ^ mw) mod 2 ^ ew) in *.
  assert (Hcanon : forall p d x, 2 ^ (d - 1) <= Zpos p < 2 ^ d -> 0 < d ->
             SpecFloat.fexp prec emax (d + x) = x -> x <= emax - prec ->
             bounded prec emax p x = true).
  { intros p d x Hp Hd Hf Hx. unfold bounded, canonical_mantissa.
    pose proof (Zdigits2_unique (Zpos p) d Hp Hd) as Hdig.
    change (Zdigits2 (Zpos p)) with (Zpos (digits2_pos p)) in Hdig.
    rewrite Hdig, Hf, Z.eqb_refl. simpl. apply Z.leb_le. exact Hx. }
  destruct (e =? 0) eqn:E0.
  - destruct m as [|p|p] eqn:Em; try reflexivity. simpl.
    pose proof (Zdigits2_bounds (Zpos p) ltac:(lia)) as [Hlo Hhi].
    pose proof (Zdigits2_nonneg (Zpos p)).
    assert (Zdigits2 (Zpos p) <= mw).
    { destruct (Z_le_gt_dec (Zdigits2 (Zpos p)) mw); [assumption|].
      assert (2 ^ mw <= 2 ^ (Zdigits2 (Z.pos p) - 1)) by (apply Z.pow_le_mono_r; lia).
      lia. }
    apply (Hcanon p (Zdigits2 (Zpos p))); try lia.
    + rewrite Zdigits2_log2 by lia. pose proof (Z.log2_nonneg (Zpos p)). lia.
    + unfold fexp, emin. unfold mw, IEEE.mw in *. lia.
    + unfold emin. lia.
  - destruct (e =? 2 ^ ew - 1) eqn:E1.
    + destruct (m =? 0); reflexivity.
    + apply Z.eqb_neq in E0, E1.
      destruct (m + 2 ^ mw) as [|p|p] eqn:Em; try reflexivity. simpl.
      apply (Hcanon p prec); try lia.
      * rewrite <- Em. unfold mw, IEEE.mw in *.
        assert (2 ^ prec = 2 * 2 ^ (prec - 1)).
        { rewrite <- Z.pow_succ_r by lia. f_equal. lia. }
        lia.
      * unfold fexp, emin. lia.
      * unfold emin. lia.
Qed.

Lemma of_bits_bits_of (a : IEEE.binary prec emax) :
  IEEE.of_bits prec emax (IEEE.bits_of prec emax a) = a.
Proof.
  apply binary_ext. unfold IEEE.of_bits, IEEE.bits_of.
  rewrite fval_pack by apply spec_of_bits_valid.
  apply spec_of_bits_of_spec. apply IEEE.fvalid.
Qed.

Lemma bits_of_range (a : IEEE.binary prec emax) :
  0 <= IEEE.bits_of prec emax a < 2 ^ (prec + IEEE.ew emax).
Proof.
  unfold IEEE.bits_of.
  pose proof (bits_of_spec_range (IEEE.fval a) (IEEE.fvalid a)) as H.
  unfold mw, ew, IEEE.mw in H.
  replace (prec - 1 + IEEE.ew emax + 1) with (prec + IEEE.ew emax) in H by lia.
  exact H.
Qed.

End BitsProps.

(** ** Bytes *)

Lemma Z_of_byte_of_Z z : Z_of_byte (byte_of_Z z) = z mod 256.
Proof.
  unfold Z_of_byte, byte_of_Z.
  pose proof (Z.mod_pos_bound z 256 ltac:(lia)) as H.
  destruct (Byte.of_N (Z.to_N (z mod 256))) as [b|] eqn:E.
  - apply Byte.to_of_N in E. rewrite E. lia.
  - apply Byte.of_N_None_iff in E. lia.
Qed.

Lemma Z_of_byte_range b : 0 <= Z_of_byte b < 256.
Proof.
  unfold Z_of_byte. pose proof (Byte.to_N_bounded b). lia.
Qed.

Lemma length_le_bytes n : forall z, List.length (le_bytes n z) = n.
Proof. induction n; intros z; simpl; [reflexivity|]. rewrite IHn. reflexivity. Qed.

Lemma le_int_le_bytes n : forall z,
  le_int (le_bytes n z) = z mod 256 ^ Z.of_nat n.
Proof.
  induction n; intros z.
  - simpl. rewrite Z.mod_1_r. reflexivity.
  - cbn [le_bytes le_int]. rewrite IHn, Z_of_byte_of_Z.
    rewrite Nat2Z.inj_succ, Z.pow_succ_r by lia.
    assert (0 < 256 ^ Z.of_nat n) by (apply Z.pow_pos_nonneg; lia).
    rewrite Z.rem_mul_r by lia. reflexivity.
Qed.

Lemma length_int_to_bytes order n z :
  List.length (int_to_bytes order n z) = n.
Proof.
  destruct order; simpl; rewrite ?length_rev; apply length_le_bytes.
Qed.

Lemma int_from_to_bytes order n z :
  0 <= z < 256 ^ Z.of_nat n ->
  int_from_bytes order (int_to_bytes order n z) = z.
Proof.
  intros H. destruct order; simpl; rewrite ?rev_involutive;
    rewrite le_int_le_bytes; apply Z.mod_small; exact H.
Qed.

Lemma chunks_two {A : Type} (size : nat) (a b : list A) :
  List.length a = size -> List.length b = size ->
  chunks 2 size (a ++ b) = [a; b].
Proof.
  intros Ha Hb. cbn [chunks].
  rewrite firstn_app, skipn_app, Ha, Nat.sub_diag.
  rewrite <- Ha at 1 3. rewrite firstn_all, skipn_all.
  cbn [firstn skipn app]. rewrite app_nil_r.
  rewrite <- Hb. rewrite firstn_all. reflexivity.
Qed.

Lemma double_from_to_bytes order (f : float) :
  IEEE.of_bits 53 1024 (int_from_bytes order (int_to_bytes order 8 (IEEE.bits_of 53 1024 f))) = f.
Proof.
  rewrite int_from_to_bytes.
  - apply of_bits_bits_of; [lia|lia|reflexivity].
  - pose proof (bits_of_range 53 1024 ltac:(lia) eq_refl f) as H.
    change (2 ^ (53 + IEEE.ew 1024)) with (256 ^ Z.of_nat 8) in H. exact H.
Qed.

Lemma single_from_to_bytes order (f : binary32) :
  IEEE.of_bits 24 128 (int_from_bytes order (int_to_bytes order 4 (IEEE.bits_of 24 128 f))) = f.
Proof.
  rewrite int_from_to_bytes.
  - apply of_bits_bits_of; [lia|lia|reflexivity].
  - pose proof (bits_of_range 24 128 ltac:(lia) eq_refl f) as H.
    change (2 ^ (24 + IEEE.ew 128)) with (256 ^ Z.of_nat 4) in H. exact H.
Qed.

(** ** Rounding to nearest, ties to even *)

Lemma iter_pos_iter {A : Type} (f : A -> A) (p : positive) :
  forall a, iter_pos f p a = Pos.iter f a p.
Proof.
  induction p as [p IH|p IH|]; intros a; simpl.
  - rewrite !IH, !Pos.iter_swap. reflexivity.
  - rewrite !IH. reflexivity.
  - reflexivity.
Qed.

Lemma shr_1_spec m r s :
  0 <= m ->
  shr_1 {| shr_m := m; shr_r := r; shr_s := s |} =
  {| shr_m := m / 2; shr_r := Z.odd m; shr_s := r || s |}.
Proof.
  intros Hm. destruct m as [|[p|p|]|]; try lia; simpl.
  - reflexivity.
  - f_equal. apply Z.div_unique with 1; lia.
  - f_equal. apply Z.div_unique with 0; lia.
  - reflexivity.
Qed.

Lemma loc_of_rem_cases rem d :
  (rem = 0 -> loc_of_rem rem d = loc_Exact) /\
  (rem <> 0 -> 2 * rem < d -> loc_of_rem rem d = loc_Inexact Lt) /\
  (rem <> 0 -> 2 * rem = d -> loc_of_rem rem d = loc_Inexact Eq) /\
  (rem <> 0 -> d < 2 * rem -> loc_of_rem rem d = loc_Inexact Gt).
Proof.
  unfold loc_of_rem. repeat split.
  - intros ->. reflexivity.
  - intros H1 H2. apply Z.eqb_neq in H1. rewrite H1.
    apply Z.compare_lt_iff in H2. rewrite H2. reflexivity.
  - intros H1 H2. apply Z.eqb_neq in H1. rewrite H1.
    apply Z.compare_eq_iff in H2. rewrite H2. reflexivity.
  - intros H1 H2. apply Z.eqb_neq in H1. rewrite H1.
    apply Z.compare_gt_iff in H2. rewrite H2. reflexivity.
Qed.

Lemma loc_of_shr_record_exact mrs :
  loc_of_shr_record mrs = loc_Exact <-> shr_r mrs || shr_s mrs = false.
Proof. destruct mrs as [m [] []]; simpl; split; congruence. Qed.

Lemma shr_1_step m0 k mrs :
  0 <= m0 -> 0 <= k ->
  shr_m mrs = m0 / 2 ^ k ->
  loc_of_shr_record mrs = loc_of_rem (m0 mod 2 ^ k) (2 ^ k) ->
  shr_m (shr_1 mrs) = m0 / 2 ^ (k + 1) /\
  loc_of_shr_record (shr_1 mrs) = loc_of_rem (m0 mod 2 ^ (k + 1)) (2 ^ (k + 1)).
Proof.
  intros Hm0 Hk Hm Hl.
  pose proof (loc_of_shr_record_exact mrs) as Hex.
  destruct mrs as [m r s]. cbn [shr_m shr_r shr_s] in *.
  pose proof (pow2_pos k Hk) as Hp.
  assert (0 <= m) by (rewrite Hm; apply Z.div_pos; lia).
  rewrite shr_1_spec by assumption. cbn [shr_m].
  split.
  { rewrite Hm. change 2 with (2 ^ 1) at 2. apply div_div_pow2; lia. }
  assert (Hrem : m0 mod 2 ^ (k + 1) = m0 mod 2 ^ k + 2 ^ k * (m mod 2)).
  { rewrite Z.pow_add_r by lia. change (2 ^ 1) with 2.
    rewrite Z.rem_mul_r by lia. rewrite Hm. reflexivity. }
  assert (Hpow : 2 ^ (k + 1) = 2 * 2 ^ k).
  { rewrite Z.pow_add_r by lia. change (2 ^ 1) with 2. lia. }
  pose proof (Z.mod_pos_bound m0 (2 ^ k) Hp) as Hb.
  rewrite Zmod_odd in Hrem.
  destruct (loc_of_rem_cases (m0 mod 2 ^ (k + 1)) (2 ^ (k + 1))) as (C0 & C1 & C2 & C3).
  destruct (loc_of_rem_cases (m0 mod 2 ^ k) (2 ^ k)) as (D0 & _).
  destruct (Z.eq_dec (m0 mod 2 ^ k) 0) as [E0|E0].
  - rewrite (D0 E0) in Hl. apply Hex in Hl. rewrite Hl.
    destruct (Z.odd m).
    + rewrite C2 by lia. reflexivity.
    + rewrite C0 by lia. reflexivity.
  - assert (r || s = true) as ->.
    { destruct r, s; try reflexivity. exfalso.
      cbn [loc_of_shr_record] in Hl. unfold loc_of_rem in Hl.
      apply Z.eqb_neq in E0. rewrite E0 in Hl. discriminate. }
    destruct (Z.odd m).
    + rewrite C3 by lia. reflexivity.
    + rewrite C1 by lia. reflexivity.
Qed.

Lemma iter_shr_1_loc m0 p :
  0 <= m0 ->
  let mrs := iter_pos shr_1 p {| shr_m := m0; shr_r := false; shr_s := false |} in
  shr_m mrs = m0 / 2 ^ Zpos p /\
  loc_of_shr_record mrs = loc_of_rem (m0 mod 2 ^ Zpos p) (2 ^ Zpos p).
Proof.
  intros Hm0. cbv zeta. rewrite iter_pos_iter.
  assert (H0 : shr_m {| shr_m := m0; shr_r := false; shr_s := false |} = m0 / 2 ^ 0 /\
               loc_of_shr_record {| shr_m := m0; shr_r := false; shr_s := false |}
               = loc_of_rem (m0 mod 2 ^ 0) (2 ^ 0)).
  { simpl. rewrite Z.div_1_r, Z.mod_1_r. auto. }
  induction p using Pos.peano_ind.
  - simpl Pos.iter. destruct H0 as [Ha Hb].
    apply (shr_1_step m0 0 _ Hm0 ltac:(lia) Ha Hb).
  - rewrite Pos.iter_succ. destruct IHp as [Ha Hb].
    rewrite Pos2Z.inj_succ. unfold Z.succ.
    apply (shr_1_step m0 (Zpos p) _ Hm0 ltac:(lia) Ha Hb).
Qed.

Lemma round_nearest_even_loc m d :
  0 <= m -> 0 < d ->
  round_nearest_even (m / d) (loc_of_rem (m mod d) d) = div_half_even m d.
Proof.
  intros Hm Hd. unfold div_half_even.
  pose proof (Z.mod_pos_bound m d Hd) as Hb.
  destruct (loc_of_rem_cases (m mod d) d) as (C0 & C1 & C2 & C3).
  destruct (2 * (m mod d) <? d) eqn:E1.
  - apply Z.ltb_lt in E1.
    destruct (Z.eq_dec (m mod d) 0) as [E0|E0].
    + rewrite C0 by assumption. reflexivity.
    + rewrite C1 by assumption. reflexivity.
  - apply Z.ltb_ge in E1.
    destruct (d <? 2 * (m mod d)) eqn:E2.
    + apply Z.ltb_lt in E2. rewrite C3 by lia. reflexivity.
    + apply Z.ltb_ge in E2. rewrite C2 by lia. reflexivity.
Qed.

Lemma div_half_even_error m d :
  0 <= m -> 0 < d ->
  let q := div_half_even m d in
  2 * Z.abs (q * d - m) <= d /\ m / d <= q <= m / d + 1.
Proof.
  intros Hm Hd. unfold div_half_even.
  pose proof (Z.mod_pos_bound m d Hd) as Hb.
  pose proof (Z.div_mod m d ltac:(lia)) as Hdm.
  cbv zeta.
  destruct (2 * (m mod d) <? d) eqn:E1.
  - apply Z.ltb_lt in E1. nia.
  - apply Z.ltb_ge in E1.
    destruct (d <? 2 * (m mod d)) eqn:E2.
    + apply Z.ltb_lt in E2. nia.
    + apply Z.ltb_ge in E2. destruct (Z.even (m / d)); nia.
Qed.

Lemma div_half_even_le m d k :
  0 <= m -> 0 < d -> m <= k * d -> div_half_even m d <= k.
Proof.
  intros Hm Hd Hk. unfold div_half_even.
  pose proof (Z.mod_pos_bound m d Hd) as Hb.
  pose proof (Z.div_mod m d ltac:(lia)) as Hdm.
  assert (m / d <= k) by (apply Z.div_le_upper_bound; lia).
  destruct (2 * (m mod d) <? d) eqn:E1; [lia|].
  apply Z.ltb_ge in E1.
  assert (m / d < k) by nia.
  destruct (d <? 2 * (m mod d)); [lia|]. destruct (Z.even (m / d)); lia.
Qed.

Section RoundingValue.
Variables prec emax : Z.
Hypothesis prec_gt_0 : 0 < prec.

Let fexp := SpecFloat.fexp prec emax.

Lemma binary_round_right s m e :
  e < fexp (Zpos (digits2_pos m) + e) ->
  binary_round prec emax s m e =
  finish prec emax s (div_half_even (Zpos m) (2 ^ (fexp (Zpos (digits2_pos m) + e) - e)))
         (fexp (Zpos (digits2_pos m) + e)).
Proof.
  intros He. unfold binary_round. fold fexp.
  set (e1 := fexp (Zpos (digits2_pos m) + e)) in *.
  unfold shl_align.
  destruct (e1 - e) as [|p|p] eqn:Ep; try lia.
  unfold binary_round_aux, finish, shr_fexp. fold fexp.
  change (Zdigits2 (Zpos m)) with (Zpos (digits2_pos m)). fold e1.
  rewrite Ep. cbn [shr shr_record_of_loc].
  destruct (iter_shr_1_loc (Zpos m) p ltac:(lia)) as [Hq Hl]. cbv zeta in Hq, Hl.
  rewrite Hq, Hl, round_nearest_even_loc by (try apply pow2_pos; lia).
  replace (e + Zpos p) with e1 by lia. reflexivity.
Qed.

Lemma binary_round_left s m e :
  fexp (Zpos (digits2_pos m) + e) <= e ->
  exists mz,
    Zpos mz = Zpos m * 2 ^ (e - fexp (Zpos (digits2_pos m) + e)) /\
    binary_round prec emax s m e =
    if fexp (Zpos (digits2_pos m) + e) <=? emax - prec
    then S754_finite s mz (fexp (Zpos (digits2_pos m) + e))
    else S754_infinity s.
Proof.
  intros He. unfold binary_round. fold fexp.
  set (e1 := fexp (Zpos (digits2_pos m) + e)) in *.
  pose proof (shl_align_spec m e e1) as H.
  destruct (shl_align m e e1) as [mz ez]. destruct H as [Hez Hmz].
  rewrite Z.min_r in Hez by lia. rewrite Hez in *. clear Hez ez.
  exists mz. split; [exact Hmz|].
  assert (Hd : Zdigits2 (Zpos mz) + e1 = Zpos (digits2_pos m) + e).
  { rewrite Hmz, Zdigits2_mul_pow2 by lia.
    change (Zdigits2 (Zpos m)) with (Zpos (digits2_pos m)). lia. }
  unfold binary_round_aux, shr_fexp. fold fexp.
  rewrite Hd. fold e1. rewrite Z.sub_diag.
  cbn [shr shr_record_of_loc shr_m loc_of_shr_record round_nearest_even].
  rewrite Hd. fold e1. rewrite Z.sub_diag.
  cbn [shr shr_record_of_loc shr_m]. reflexivity.
Qed.

Lemma Zdigits2_lt_pow2 q d : 0 <= q < 2 ^ d -> 0 <= d -> Zdigits2 q <= d.
Proof.
  intros [Hq Hlt] Hd.
  destruct (Z.eq_dec q 0) as [->|Hn]; [simpl; lia|].
  pose proof (Zdigits2_bounds q ltac:(lia)) as [Hlo _].
  destruct (Z_le_gt_dec (Zdigits2 q) d) as [|Hgt]; [assumption|].
  assert (2 ^ d <= 2 ^ (Zdigits2 q - 1)) by (apply Z.pow_le_mono_r; lia).
  lia.
Qed.

Lemma finish_value s q q0 e1 :
  0 < q -> 0 <= q0 -> q0 <= q <= q0 + 1 ->
  e1 = fexp (Zdigits2 q0 + e1) ->
  exists p e2,
    finish prec emax s q e1 =
      (if e2 <=? emax - prec then S754_finite s p e2 else S754_infinity s) /\
    e1 <= e2 /\ e2 = fexp (Zdigits2 q + e1) /\
    Zpos p * 2 ^ (e2 - e1) = q.
Proof.
  intros Hq Hq0 Hqq He1.
  assert (Hpre : e1 <= fexp (Zdigits2 q + e1)).
  { rewrite He1 at 1. apply fexp_le.
    pose proof (Zdigits2_le q0 q ltac:(lia)). lia. }
  destruct (shr_fexp_canonical prec emax prec_gt_0 q e1 loc_Exact ltac:(lia) Hpre)
    as (Hm0 & Hm & He2 & _).
  unfold finish. fold fexp in Hm, He2.
  destruct (shr_fexp prec emax q e1 loc_Exact) as [mrs e2].
  cbn [fst snd] in Hm0, Hm, He2.
  set (n := fexp (Zdigits2 q + e1) - e1) in *.
  assert (Hn : 0 <= n) by (unfold n; lia).
  assert (Hexact : q / 2 ^ n * 2 ^ n = q).
  { destruct (Z.eq_dec n 0) as [->|Hn0]; [rewrite Z.div_1_r; lia|].
    pose proof (Zdigits2_nonneg q0) as Hd0.
    assert (Hdq : Zdigits2 q0 < Zdigits2 q).
    { destruct (Z_lt_le_dec (Zdigits2 q0) (Zdigits2 q)); [assumption|].
      pose proof (Zdigits2_le q0 q ltac:(lia)).
      assert (Zdigits2 q = Zdigits2 q0) as E by lia.
      unfold n in Hn0. rewrite E in Hn0. lia. }
    assert (Hpow : q = 2 ^ Zdigits2 q0).
    { assert (q0 < 2 ^ Zdigits2 q0).
      { destruct (Z.eq_dec q0 0) as [->|]; [simpl; lia|].
        apply Zdigits2_bounds. lia. }
      destruct (Z_lt_le_dec q (2 ^ Zdigits2 q0)) as [Hlt|]; [|lia].
      pose proof (Zdigits2_lt_pow2 q (Zdigits2 q0) ltac:(lia) Hd0). lia. }
    assert (Hdq' : Zdigits2 q = Zdigits2 q0 + 1)
      by (rewrite Hpow; apply Zdigits2_pow2; lia).
    assert (n = 1).
    { unfold n in *. rewrite Hdq' in *. rewrite He1 at 2.
      rewrite He1 in Hn0 at 2.
      unfold fexp, SpecFloat.fexp in *. lia. }
    subst n.
    assert (0 < Zdigits2 q0).
    { destruct (Z.eq_dec (Zdigits2 q0) 0) as [E|]; [|lia]. exfalso.
      rewrite Hdq', E in H. rewrite E in He1.
      unfold fexp, SpecFloat.fexp, emin in *. lia. }
    rewrite H, Hpow.
    replace (Zdigits2 q0) with (Zdigits2 q0 - 1 + 1) at 1 2 by lia.
    rewrite Z.pow_add_r by lia. change (2 ^ 1) with 2.
    rewrite Z.div_mul by lia. reflexivity. }
  pose proof (pow2_pos n Hn) as Hp.
  destruct (shr_m mrs) as [|p|p] eqn:Ep.
  - exfalso. rewrite <- Hm in Hexact. rewrite Z.mul_0_l in Hexact. lia.
  - exists p, e2. rewrite He2.
    split; [reflexivity|]. split; [lia|]. split; [reflexivity|].
    fold n. rewrite Hm. exact Hexact.
  - lia.
Qed.

End RoundingValue.

(** ** Single precision and back *)

Lemma pow2_split a b : 0 <= a -> 0 <= b -> 2 ^ (a + b) = 2 ^ a * 2 ^ b.
Proof. intros. apply Z.pow_add_r; assumption. Qed.

Lemma narrow_widen_value s m e :
  valid_binary 53 1024 (S754_finite s m e) = true ->
  2 ^ 948 <= Zpos m * 2 ^ (e + 1074) <= (2 ^ 24 - 1) * 2 ^ 1178 ->
  exists p e2 mz e3,
    binary_round 24 128 s m e = S754_finite s p e2 /\
    binary_round 53 1024 s p e2 = S754_finite s mz e3 /\
    -1074 <= e3 /\ -1074 <= e /\ 2 ^ 52 <= Zpos m /\
    Zpos mz * 2 ^ (e3 + 1074) =
      div_half_even (Zpos m) (2 ^ 29) * 2 ^ 29 * 2 ^ (e + 1074).
Proof.
  intros Hv [Hlo Hhi].
  destruct (valid_finite_cases 53 1024 ltac:(lia) s m e Hv) as [He [[Hm Hemin]|[Hm Hemin]]];
    unfold IEEE.mw, emin in *.
  2:{ exfalso. subst e. change (2 ^ (-1074 + 1074)) with 1 in Hlo.
      assert (2 ^ 52 < 2 ^ 948) by (apply Z.pow_lt_mono_r; lia).
      change (53 - 1) with 52 in Hm. lia. }
  change (53 - 1) with 52 in Hm. change (52 + 1) with 53 in Hm.
  assert (Hp0 : 0 <= e + 1074) by lia.
  pose proof (pow2_pos (e + 1074) Hp0) as HP.
  set (P := 2 ^ (e + 1074)) in *.
  (* bounds on the exponent *)
  assert (Hel : -178 <= e).
  { assert (2 ^ 948 < 2 ^ (53 + (e + 1074))).
    { rewrite pow2_split by lia. fold P. nia. }
    apply Z.pow_lt_mono_r_iff in H; lia. }
  assert (Heh : e <= 75).
  { assert (2 ^ (52 + (e + 1074)) < 2 ^ 1202).
    { rewrite pow2_split by lia. fold P.
      assert ((2 ^ 24 - 1) * 2 ^ 1178 < 2 ^ 1202).
      { change 1202 with (24 + 1178). rewrite pow2_split by lia.
        pose proof (pow2_pos 1178 ltac:(lia)). nia. }
      nia. }
    apply Z.pow_lt_mono_r_iff in H; lia. }
  assert (Hd : Zpos (digits2_pos m) = 53).
  { change (Zpos (digits2_pos m)) with (Zdigits2 (Zpos m)).
    apply Zdigits2_unique; [|lia]. change (53 - 1) with 52. lia. }
  assert (Hf : SpecFloat.fexp 24 128 (Zpos (digits2_pos m) + e) = e + 29).
  { rewrite Hd. unfold SpecFloat.fexp, emin. lia. }
  pose proof (binary_round_right 24 128 s m e) as Hr.
  rewrite Hf in Hr. specialize (Hr ltac:(lia)).
  replace (e + 29 - e) with 29 in Hr by lia.
  set (q := div_half_even (Zpos m) (2 ^ 29)) in *.
  destruct (div_half_even_error (Zpos m) (2 ^ 29) ltac:(lia) ltac:(lia)) as [Herr Hq].
  cbv zeta in Herr, Hq. fold q in Herr, Hq.
  pose proof (Z.div_mod (Zpos m) (2 ^ 29) ltac:(lia)) as Hdm.
  pose proof (Z.mod_pos_bound (Zpos m) (2 ^ 29) ltac:(lia)) as Hmb.
  set (q0 := Zpos m / 2 ^ 29) in *.
  assert (Hq0 : 2 ^ 23 <= q0 < 2 ^ 24).
  { change (2 ^ 52) with (2 ^ 23 * 2 ^ 29) in Hm.
    change (2 ^ 53) with (2 ^ 24 * 2 ^ 29) in Hm.
    pose proof (pow2_pos 29 ltac:(lia)). nia. }
  assert (Hdq0 : Zdigits2 q0 = 24).
  { apply Zdigits2_unique; [|lia]. change (24 - 1) with 23. exact Hq0. }
  destruct (finish_value 24 128 ltac:(lia) s q q0 (e + 29)) as (p & e2 & Hfin & He12 & He2 & Hpq).
  { lia. } { lia. } { lia. }
  { rewrite Hdq0. unfold SpecFloat.fexp, emin. lia. }
  (* no overflow *)
  set (T := 2 ^ (104 - (e + 29))).
  assert (HT : 0 < T) by (apply pow2_pos; lia).
  assert (Hsplit : 2 ^ 1178 = T * 2 ^ 29 * P).
  { unfold T, P. rewrite <- !pow2_split by lia. f_equal. lia. }
  assert (Hqmax : q <= (2 ^ 24 - 1) * T).
  { apply div_half_even_le; [lia|lia|].
    rewrite Hsplit in Hhi.
    apply Z.mul_le_mono_pos_r with P; [lia|]. lia. }
  assert (Hdq : Zdigits2 q <= 128 - (e + 29)).
  { apply Zdigits2_lt_pow2; [|lia]. split; [lia|].
    replace (128 - (e + 29)) with (24 + (104 - (e + 29))) by lia.
    rewrite pow2_split by lia. fold T. lia. }
  assert (He2max : e2 <= 104).
  { rewrite He2. unfold SpecFloat.fexp, emin. lia. }
  replace (e2 <=? 128 - 24) with true in Hfin by (symmetry; apply Z.leb_le; lia).
  rewrite Hfin in Hr.
  (* widening is exact *)
  assert (Hp25 : Zdigits2 (Zpos p) <= 25).
  { apply Zdigits2_lt_pow2; [|lia].
    assert (1 <= 2 ^ (e2 - (e + 29))) by (pose proof (pow2_pos (e2 - (e + 29))); lia).
    change (2 ^ 25) with (2 * 2 ^ 24). nia. }
  change (Zdigits2 (Zpos p)) with (Zpos (digits2_pos p)) in Hp25.
  assert (Hf3 : SpecFloat.fexp 53 1024 (Zpos (digits2_pos p) + e2) <= e2).
  { unfold SpecFloat.fexp, emin. lia. }
  destruct (binary_round_left 53 1024 s p e2 Hf3) as (mz & Hmz & Hw).
  set (e3 := SpecFloat.fexp 53 1024 (Zpos (digits2_pos p) + e2)) in *.
  assert (He3 : -1074 <= e3) by (unfold e3, SpecFloat.fexp, emin; lia).
  replace (e3 <=? 1024 - 53) with true in Hw by (symmetry; apply Z.leb_le; lia).
  exists p, e2, mz, e3.
  repeat split; try assumption; try lia.
  rewrite Hmz, <- Hpq.
  unfold P.
  replace (e3 + 1074) with ((e3 + 1074)) by lia.
  rewrite <- !Z.mul_assoc. f_equal.
  rewrite <- !pow2_split by lia. f_equal. lia.
Qed.

Lemma single_round_trip_close (f : float) :
  in_single_range f = true ->
  isclose f (double_of_single (single_of_double f)) = true.
Proof.
  unfold in_single_range, isclose, ulps.
  destruct f as [fv Hv]. cbn [IEEE.fval].
  destruct fv as [s|s| |s m e]; try discriminate.
  - intros _. destruct s; reflexivity.
  - intros Hin.
    assert (Hsign : Z.abs ((if s then Zneg m else Zpos m) * 2 ^ (e + 1074))
                    = Zpos m * 2 ^ (e + 1074)).
    { destruct (valid_finite_cases 53 1024 ltac:(lia) s m e Hv) as [_ Hc].
      assert (-1074 <= e) by (unfold emin in Hc; lia).
      pose proof (pow2_pos (e + 1074) ltac:(lia)).
      destruct s.
      - change (Zneg m) with (- Zpos m). nia.
      - nia. }
    rewrite Hsign in Hin.
    assert (Hrange : 2 ^ 948 <= Zpos m * 2 ^ (e + 1074) <= (2 ^ 24 - 1) * 2 ^ 1178).
    { apply orb_prop in Hin. destruct Hin as [Hin|Hin].
      - apply Z.eqb_eq in Hin.
        destruct (valid_finite_cases 53 1024 ltac:(lia) s m e Hv) as [_ Hc].
        assert (-1074 <= e) by (unfold emin in Hc; lia).
        pose proof (pow2_pos (e + 1074) ltac:(lia)).
        destruct s; [change (Zneg m) with (- Zpos m) in Hin|]; nia.
      - apply andb_prop in Hin. destruct Hin as [H1 H2].
        apply Z.leb_le in H1, H2. lia. }
    destruct (narrow_widen_value s m e Hv Hrange)
      as (p & e2 & mz & e3 & Hn & Hw & He3 & He & Hm & Hval).
    assert (Hs : IEEE.fval (single_of_double {| IEEE.fval := S754_finite s m e; IEEE.fvalid := Hv |})
                 = S754_finite s p e2).
    { unfold single_of_double, IEEE.convert. cbn [IEEE.fval].
      rewrite fval_round by lia. exact Hn. }
    assert (Hd : IEEE.fval (double_of_single
                   (single_of_double {| IEEE.fval := S754_finite s m e; IEEE.fvalid := Hv |}))
                 = S754_finite s mz e3).
    { unfold double_of_single, IEEE.convert. rewrite Hs.
      rewrite fval_round by lia. exact Hw. }
    rewrite Hd. apply orb_true_iff. right. apply Z.leb_le.
    pose proof (pow2_pos (e + 1074) ltac:(lia)) as HP.
    destruct (div_half_even_error (Zpos m) (2 ^ 29) ltac:(lia) ltac:(lia)) as [Herr _].
    cbv zeta in Herr.
    set (q := div_half_even (Zpos m) (2 ^ 29)) in *.
    set (P := 2 ^ (e + 1074)) in *.
    assert (Hv2 : (if s then Zneg mz else Zpos mz) * 2 ^ (e3 + 1074)
                  = (if s then -1 else 1) * (q * 2 ^ 29 * P)).
    { destruct s; [change (Zneg mz) with (- Zpos mz)|]; lia. }
    assert (Hu : (if s then Zneg m else Zpos m) * P
                 = (if s then -1 else 1) * (Zpos m * P)).
    { destruct s; [change (Zneg m) with (- Zpos m)|]; lia. }
    rewrite Hv2, Hu.
    assert (Hdiff : Z.abs ((if s then -1 else 1) * (Zpos m * P)
                           - (if s then -1 else 1) * (q * 2 ^ 29 * P))
                    = Z.abs (q * 2 ^ 29 - Zpos m) * P).
    { destruct s; nia. }
    rewrite Hdiff.
    assert (Habs : Z.abs ((if s then -1 else 1) * (Zpos m * P)) = Zpos m * P).
    { destruct s; nia. }
    rewrite Habs.
    apply Z.le_trans with (Zpos m * P); [|apply Z.le_max_l].
    assert (10 ^ 6 * 2 ^ 28 <= 2 ^ 52) by (vm_compute; discriminate).
    change (2 ^ 29) with (2 * 2 ^ 28) in Herr.
    assert (Z.abs (q * 2 ^ 29 - Zpos m) <= 2 ^ 28) by lia.
    nia.
Qed.

(** ** Construction *)

Lemma init_ok cls a b fa fb :
  py_float a = Ok fa -> py_float b = Ok fb ->
  __init__ cls a b = Ok (mkInstance cls fa fb).
Proof. intros Ha Hb. unfold __init__. rewrite Ha, Hb. reflexivity. Qed.

Lemma init_inv cls a b v :
  __init__ cls a b = Ok v ->
  ob_type v = cls /\ py_float a = Ok (x v) /\ py_float b = Ok (y v).
Proof.
  unfold __init__. destruct (py_float a) as [fa|e]; [|discriminate].
  destruct (py_float b) as [fb|e]; [|discriminate].
  simpl. intros [= <-]. auto.
Qed.

(** ** Integers that are doubles *)

Lemma float_of_int_exact n :
  Z.abs n < 2 ^ 53 ->
  exists f, float_of_int n = Ok f /\ ulps f = Some (n * 2 ^ 1074).
Proof.
  intros Hn. unfold float_of_int, IEEE.is_finite, ulps.
  rewrite fval_of_Z by lia.
  assert (Hpos : forall s p, Zpos p < 2 ^ 53 ->
            exists mz e3,
              binary_round 53 1024 s p 0 = S754_finite s mz e3 /\
              -1074 <= e3 /\ Zpos mz * 2 ^ (e3 + 1074) = Zpos p * 2 ^ 1074).
  { intros s p Hp.
    assert (Hd : Zpos (digits2_pos p) <= 53).
    { change (Zpos (digits2_pos p)) with (Zdigits2 (Zpos p)).
      apply Zdigits2_lt_pow2; lia. }
    assert (Hf : SpecFloat.fexp 53 1024 (Zpos (digits2_pos p) + 0) <= 0).
    { unfold SpecFloat.fexp, emin. lia. }
    destruct (binary_round_left 53 1024 s p 0 Hf) as (mz & Hmz & Hr).
    set (e3 := SpecFloat.fexp 53 1024 (Zpos (digits2_pos p) + 0)) in *.
    assert (-1074 <= e3) by (unfold e3, SpecFloat.fexp, emin; lia).
    replace (e3 <=? 1024 - 53) with true in Hr by (symmetry; apply Z.leb_le; lia).
    exists mz, e3. split; [exact Hr|]. split; [lia|].
    rewrite Hmz, <- Z.mul_assoc, <- Z.pow_add_r by lia.
    f_equal. f_equal. lia. }
  destruct n as [|p|p]; cbn [binary_normalize].
  - eexists. split; reflexivity.
  - destruct (Hpos false p ltac:(lia)) as (mz & e3 & Hr & He & Hv).
    rewrite Hr. eexists. split; [reflexivity|].
    rewrite fval_of_Z by lia. cbn [binary_normalize]. rewrite Hr. f_equal. exact Hv.
  - destruct (Hpos true p ltac:(lia)) as (mz & e3 & Hr & He & Hv).
    rewrite Hr. eexists. split; [reflexivity|].
    rewrite fval_of_Z by lia. cbn [binary_normalize]. rewrite Hr. f_equal.
    change (Zneg mz) with (- Zpos mz). change (Zneg p) with (- Zpos p). lia.
Qed.

(** ** Claim C1: what construction stores *)

(** C1, as stated, fails for the derived variant: [ShortVector2d('0.1',
    '0.1')] stores the double nearest to 0.1, which is not the value that
    0.1 has at single precision.  [__init__] is inherited unchanged and
    converts with [float()] only. *)
Lemma init_short_not_single :
  exists v,
    __init__ ShortVector2d (PyStr "0.1") (PyStr "0.1") = Ok v /\
    x v <> at_typecode_width ShortVector2d (x v).
Proof.
  eexists. split; [vm_compute; reflexivity|].
  intros H. apply (f_equal IEEE.fval) in H. vm_compute in H. discriminate H.
Qed.

(** C1, amended: for every pair of inputs that [float()] converts,
    constructing a vector of either variant stores the two converted
    values, which are doubles, and reading back [x] and [y] yields exactly
    them; a float input is kept as it is and an [int] below [2^53] in
    magnitude is kept exactly.  No variant narrows at construction. *)
Theorem init_coerces_to_double
  (cls : pyclass) (a b : value) (fa fb : float) :
  py_float a = Ok fa -> py_float b = Ok fb ->
  (exists v,
     __init__ cls a b = Ok v /\ ob_type v = cls /\ x v = fa /\ y v = fb) /\
  (forall f, a = PyFloat f -> fa = f) /\
  (forall n, a = PyInt n -> Z.abs n < 2 ^ 53 -> ulps fa = Some (n * 2 ^ 1074)).
Proof.
  intros Ha Hb. split; [|split].
  - exists (mkInstance cls fa fb).
    rewrite (init_ok cls a b fa fb Ha Hb). auto.
  - intros f ->. simpl in Ha. congruence.
  - intros n -> Hn. simpl in Ha.
    destruct (float_of_int_exact n Hn) as (f & Hf & Hu). congruence.
Qed.

Lemma init_coerces_to_double_witness :
  exists v,
    __init__ ShortVector2d (PyInt 3) (PyStr "4") = Ok v /\
    ob_type v = ShortVector2d /\ x v = float_of_Z 3 /\ y v = float_of_Z 4.
Proof.
  apply (init_coerces_to_double ShortVector2d (PyInt 3) (PyStr "4")
           (float_of_Z 3) (float_of_Z 4)); vm_compute; reflexivity.
Defined.

(** ** Encoding and decoding *)

Lemma bytes_packed order (self : instance) :
  __bytes__ order self =
  Ok (byte_of_Z (ord (typecode (ob_type self)))
      :: packed_item order (ob_type self) (x self)
      ++ packed_item order (ob_type self) (y self)).
Proof.
  destruct self as [cls fx fy]. destruct cls;
    unfold __bytes__, array_tobytes, __iter__, packed_item; simpl;
    rewrite app_nil_r; reflexivity.
Qed.

Lemma length_packed_item order cls f :
  List.length (packed_item order cls f) = item_width cls.
Proof. destruct cls; apply length_int_to_bytes. Qed.

Lemma memoryview_cast_two order (enc : pyclass) (px py : list byte) :
  List.length px = item_width enc -> List.length py = item_width enc ->
  memoryview_cast order (typecode enc) (px ++ py) =
  Ok [PyFloat (unpacked_item order enc px); PyFloat (unpacked_item order enc py)].
Proof.
  intros Hx Hy. unfold memoryview_cast.
  destruct enc; simpl in Hx, Hy; simpl native_format; cbv iota beta;
    simpl itemsize; rewrite length_app, Hx, Hy;
    cbn [Nat.modulo Nat.div Nat.divmod Nat.eqb fst snd Nat.add Nat.sub];
    rewrite (chunks_two _ px py Hx Hy); reflexivity.
Qed.

Lemma frombytes_packed order (cls enc : pyclass) (px py : list byte) :
  List.length px = item_width enc -> List.length py = item_width enc ->
  frombytes order cls (byte_of_Z (ord (typecode enc)) :: px ++ py) =
  Ok (mkInstance cls (unpacked_item order enc px) (unpacked_item order enc py)).
Proof.
  intros Hx Hy. unfold frombytes.
  replace (chr (Z_of_byte (byte_of_Z (ord (typecode enc))))) with (typecode enc)
    by (destruct enc; reflexivity).
  rewrite (memoryview_cast_two order enc px py Hx Hy). reflexivity.
Qed.

Lemma unpacked_packed order cls f :
  unpacked_item order cls (packed_item order cls f) = at_typecode_width cls f.
Proof.
  destruct cls; unfold unpacked_item, packed_item, at_typecode_width.
  - apply double_from_to_bytes.
  - rewrite single_from_to_bytes. reflexivity.
Qed.

Lemma frombytes_bytes order cls (self : instance) :
  exists octets,
    __bytes__ order self = Ok octets /\
    frombytes order cls octets =
    Ok (mkInstance cls (at_typecode_width (ob_type self) (x self))
                       (at_typecode_width (ob_type self) (y self))).
Proof.
  eexists. split; [apply bytes_packed|].
  rewrite frombytes_packed by apply length_packed_item.
  rewrite !unpacked_packed. reflexivity.
Qed.

(** ** Claim C4: the layout of the encoding *)

(** C4: for every vector, [bytes(v)] is one byte, the ASCII code of the
    type code of its class (['d'], 0x64, for [Vector2d]; ['f'], 0x66, for
    [ShortVector2d]), followed by [x] and then [y], each packed at the
    width of the type code in the native byte order: 17 bytes for the base
    variant and 9 for the derived one. *)
Theorem bytes_layout (order : byteorder) (self : instance) :
  exists px py : list byte,
    __bytes__ order self = Ok (byte_of_Z (ord (typecode (ob_type self))) :: px ++ py) /\
    px = packed_item order (ob_type self) (x self) /\
    py = packed_item order (ob_type self) (y self) /\
    match ob_type self with
    | Vector2d =>
        byte_of_Z (ord (typecode (ob_type self))) = Byte.x64 /\
        List.length px = 8%nat /\ List.length py = 8%nat /\
        List.length (byte_of_Z (ord (typecode (ob_type self))) :: px ++ py) = 17%nat
    | ShortVector2d =>
        byte_of_Z (ord (typecode (ob_type self))) = Byte.x66 /\
        List.length px = 4%nat /\ List.length py = 4%nat /\
        List.length (byte_of_Z (ord (typecode (ob_type self))) :: px ++ py) = 9%nat
    end.
Proof.
  exists (packed_item order (ob_type self) (x self)),
         (packed_item order (ob_type self) (y self)).
  split; [apply bytes_packed|]. split; [reflexivity|]. split; [reflexivity|].
  cbn [List.length]. rewrite length_app, !length_packed_item.
  destruct (ob_type self); repeat split; reflexivity.
Qed.

(** ** Claim C3: what decoding builds *)

(** C3, as stated, fails: decoding invoked on the derived class builds
    an instance of the derived class, not of the base class;
    [frombytes] returns [cls( *memv )]. *)
Lemma frombytes_short_returns_short :
  exists octets v,
    __bytes__ LittleEndian
      (mkInstance ShortVector2d (float_of_Z 1) (float_of_Z 2)) = Ok octets /\
    frombytes LittleEndian ShortVector2d octets = Ok v /\
    ob_type v <> Vector2d.
Proof.
  do 2 eexists. split; [vm_compute; reflexivity|].
  split; [vm_compute; reflexivity|]. discriminate.
Qed.

(** C3, amended: for every well-formed encoding (the type code [enc] of
    either class, then two items of its width), decoding reads the first
    byte as the type code, reads the remaining bytes as two consecutive
    values of the width of that type code, and constructs from them an
    instance of the class [cls] that decoding is invoked on, whichever
    class produced the encoding. *)
Theorem frombytes_builds_cls
  (order : byteorder) (cls enc : pyclass) (px py : list byte) :
  List.length px = item_width enc -> List.length py = item_width enc ->
  exists v,
    frombytes order cls (byte_of_Z (ord (typecode enc)) :: px ++ py) = Ok v /\
    ob_type v = cls /\
    x v = unpacked_item order enc px /\
    y v = unpacked_item order enc py.
Proof.
  intros Hx Hy. eexists. split; [apply frombytes_packed; assumption|].
  simpl. auto.
Qed.

Lemma frombytes_builds_cls_witness :
  exists v,
    frombytes BigEndian ShortVector2d
      (byte_of_Z (ord (typecode Vector2d))
       :: int_to_bytes BigEndian 8 (IEEE.bits_of 53 1024 (float_of_Z 3))
       ++ int_to_bytes BigEndian 8 (IEEE.bits_of 53 1024 (float_of_Z 4)))
    = Ok v /\
    ob_type v = ShortVector2d /\
    x v = unpacked_item BigEndian Vector2d
            (int_to_bytes BigEndian 8 (IEEE.bits_of 53 1024 (float_of_Z 3))) /\
    y v = unpacked_item BigEndian Vector2d
            (int_to_bytes BigEndian 8 (IEEE.bits_of 53 1024 (float_of_Z 4))).
Proof.
  apply (frombytes_builds_cls BigEndian ShortVector2d Vector2d); reflexivity.
Defined.

(** ** Claim C2: encoding, then decoding *)

(** C2, as stated, fails for the derived variant: 1e-50 is below every
    positive single-precision number, is stored as 0.0, and 0.0 is not
    within a relative tolerance of 1e-6 of 1e-50. *)
Lemma short_round_trip_underflows :
  exists octets v,
    __bytes__ LittleEndian
      (mkInstance ShortVector2d (float_of_decimal 1 (-50)) (float_of_Z 0))
    = Ok octets /\
    frombytes LittleEndian ShortVector2d octets = Ok v /\
    x v = IEEE.B_zero false /\
    isclose (float_of_decimal 1 (-50)) (x v) = false.
Proof.
  do 2 eexists. split; [vm_compute; reflexivity|].
  split; [vm_compute; reflexivity|].
  split; vm_compute; reflexivity.
Qed.

(** C2, amended: for every vector and either class that decoding is
    invoked on, encoding succeeds and decoding the result succeeds; the
    decoded coordinates are the original ones at the width of the type
    code: exactly the original ones for the base variant; for the derived
    variant the original ones rounded to single precision, which are
    within a relative tolerance of 1e-6 of the original ones whenever these
    are zero or of a magnitude in the range of the normal single-precision
    numbers. *)
Theorem bytes_round_trip
  (order : byteorder) (cls : pyclass) (self : instance) :
  exists octets v,
    __bytes__ order self = Ok octets /\
    frombytes order cls octets = Ok v /\
    x v = at_typecode_width (ob_type self) (x self) /\
    y v = at_typecode_width (ob_type self) (y self) /\
    match ob_type self with
    | Vector2d => x v = x self /\ y v = y self
    | ShortVector2d =>
        (in_single_range (x self) = true -> isclose (x self) (x v) = true) /\
        (in_single_range (y self) = true -> isclose (y self) (y v) = true)
    end.
Proof.
  destruct (frombytes_bytes order cls self) as (octets & Hb & Hf).
  exists octets. eexists. split; [exact Hb|]. split; [exact Hf|].
  cbn [x y]. split; [reflexivity|]. split; [reflexivity|].
  destruct (ob_type self); cbn [at_typecode_width].
  - split; reflexivity.
  - split; apply single_round_trip_close.
Qed.

(** ** Equality and hashing *)

Lemma SFeqb_true a b :
  SFeqb a b = true ->
  (a = b /\ a <> S754_nan) \/
  (exists s1 s2, a = S754_zero s1 /\ b = S754_zero s2).
Proof.
  unfold SFeqb, SFcompare.
  destruct a as [s1|s1| |s1 m1 e1], b as [s2|s2| |s2 m2 e2];
    try discriminate;
    try (destruct s1; discriminate); try (destruct s2; discriminate).
  - intros _. right. eauto.
  - destruct s1, s2; intros H; try discriminate H; left; split; congruence.
  - destruct s1, s2; try discriminate;
      destruct (Z.compare e1 e2) eqn:Ee; try discriminate;
      destruct (Pos.compare_cont Eq m1 m2) eqn:Em; try discriminate;
      intros _; apply Z.compare_eq in Ee; apply Pos.compare_eq in Em;
      subst; left; split; congruence.
Qed.

Lemma SFeqb_refl a : a <> S754_nan -> SFeqb a a = true.
Proof.
  unfold SFeqb, SFcompare. destruct a as [s|s| |s m e]; intros Hn.
  - reflexivity.
  - destruct s; reflexivity.
  - congruence.
  - destruct s; rewrite Z.compare_refl, Pos.compare_cont_refl; reflexivity.
Qed.

Lemma SFeqb_sym_true a b : SFeqb a b = true -> SFeqb b a = true.
Proof.
  intros H. destruct (SFeqb_true _ _ H) as [[<- Hn]|(s1 & s2 & -> & ->)].
  - apply SFeqb_refl. exact Hn.
  - reflexivity.
Qed.

Lemma SFeqb_sym a b : SFeqb a b = SFeqb b a.
Proof.
  destruct (SFeqb a b) eqn:E1.
  - symmetry. apply SFeqb_sym_true. exact E1.
  - destruct (SFeqb b a) eqn:E2; [|reflexivity].
    apply SFeqb_sym_true in E2. congruence.
Qed.

Lemma SFeqb_trans a b c :
  SFeqb a b = true -> SFeqb b c = true -> SFeqb a c = true.
Proof.
  intros H1 H2.
  destruct (SFeqb_true _ _ H1) as [[<- _]|(s1 & s2 & -> & ->)]; [exact H2|].
  destruct (SFeqb_true _ _ H2) as [[<- _]|(s3 & s4 & _ & ->)]; reflexivity.
Qed.

Lemma eqb_refl (a : float) : IEEE.is_nan a = false -> IEEE.eqb a a = true.
Proof.
  unfold IEEE.is_nan, IEEE.eqb, SFeqb, SFcompare.
  destruct (IEEE.fval a) as [s|s| |s m e]; try discriminate; intros _.
  - reflexivity.
  - destruct s; reflexivity.
  - destruct s; rewrite Z.compare_refl, Pos.compare_cont_refl; reflexivity.
Qed.

Lemma hash_float_eqb (a b : float) :
  IEEE.eqb a b = true ->
  exists h, hash_float a = Hash h /\ hash_float b = Hash h.
Proof.
  unfold IEEE.eqb, hash_float. intros H.
  destruct (SFeqb_true _ _ H) as [[Hab Hn]|(s1 & s2 & Ha & Hb)].
  - rewrite <- Hab. destruct (IEEE.fval a); try congruence; eauto.
  - rewrite Ha, Hb. eauto.
Qed.

Lemma eq_op_vector (self other : instance) :
  eq_op self (PyVector other) =
  Ok (IEEE.eqb (x self) (x other) && IEEE.eqb (y self) (y other)).
Proof.
  unfold eq_op, __eq__. simpl. rewrite andb_true_r. reflexivity.
Qed.

Lemma hash_equal_of_coordinates (v1 v2 : instance) :
  IEEE.eqb (x v1) (x v2) = true ->
  IEEE.eqb (y v1) (y v2) = true ->
  exists h, __hash__ v1 = Hash h /\ __hash__ v2 = Hash h.
Proof.
  intros Hx Hy.
  destruct (hash_float_eqb _ _ Hx) as (hx & Hx1 & Hx2).
  destruct (hash_float_eqb _ _ Hy) as (hy & Hy1 & Hy2).
  exists (tuplehash_lanes [hx; hy]).
  unfold __hash__, hash_tuple, hash_items.
  rewrite Hx1, Hx2, Hy1, Hy2. auto.
Qed.

(** ** Claim C6: equal coordinates, equal hashes *)

(** The hash combines the coordinates in order: exchanging them changes
    it. *)
Lemma hash_is_order_sensitive :
  __hash__ (mkInstance Vector2d (float_of_Z 1) (float_of_Z 2))
  <> __hash__ (mkInstance Vector2d (float_of_Z 2) (float_of_Z 1)).
Proof. vm_compute. discriminate. Qed.

(** C6: the hash of a vector is the hash of the pair of its
    coordinates, and for every two vectors whose coordinates are pairwise
    equal ([==]), the two hashes are the same integer and the vectors
    compare equal. *)
Theorem equal_pairs_hash_equal (v1 v2 : instance) :
  IEEE.eqb (x v1) (x v2) = true ->
  IEEE.eqb (y v1) (y v2) = true ->
  __hash__ v1 = hash_tuple [x v1; y v1] /\
  (exists h, __hash__ v1 = Hash h /\ __hash__ v2 = Hash h) /\
  eq_op v1 (PyVector v2) = Ok true.
Proof.
  intros Hx Hy. split; [reflexivity|]. split.
  - apply hash_equal_of_coordinates; assumption.
  - rewrite eq_op_vector, Hx, Hy. reflexivity.
Qed.

Lemma equal_pairs_hash_equal_witness :
  __hash__ (mkInstance Vector2d (float_of_Z 0) (float_of_Z 4))
  = hash_tuple [float_of_Z 0; float_of_Z 4] /\
  (exists h,
     __hash__ (mkInstance Vector2d (float_of_Z 0) (float_of_Z 4)) = Hash h /\
     __hash__ (mkInstance ShortVector2d (IEEE.B_zero true) (float_of_Z 4)) = Hash h) /\
  eq_op (mkInstance Vector2d (float_of_Z 0) (float_of_Z 4))
        (PyVector (mkInstance ShortVector2d (IEEE.B_zero true) (float_of_Z 4))) = Ok true.
Proof.
  apply (equal_pairs_hash_equal
           (mkInstance Vector2d (float_of_Z 0) (float_of_Z 4))
           (mkInstance ShortVector2d (IEEE.B_zero true) (float_of_Z 4)));
    vm_compute; reflexivity.
Defined.

(** ** Float objects, their identity and their comparison *)

Lemma same_object_refl a : Obj.same_object a a = true.
Proof. unfold Obj.same_object. rewrite !Z.eqb_refl. reflexivity. Qed.

Lemma same_object_eq a b : Obj.same_object a b = true -> a = b.
Proof.
  unfold Obj.same_object. intros H. apply andb_prop in H. destruct H as [Ha Hb].
  apply Z.eqb_eq in Ha. apply Z.eqb_eq in Hb.
  destruct a as [pa fa], b as [pb fb]. simpl in *. subst pb. f_equal.
  rewrite <- (of_bits_bits_of 53 1024 ltac:(lia) ltac:(lia) eq_refl fa).
  rewrite <- (of_bits_bits_of 53 1024 ltac:(lia) ltac:(lia) eq_refl fb).
  rewrite Hb. reflexivity.
Qed.

Lemma same_object_sym a b : Obj.same_object a b = Obj.same_object b a.
Proof.
  unfold Obj.same_object.
  rewrite (Z.eqb_sym (Obj.ob_addr a)), (Z.eqb_sym (IEEE.bits_of 53 1024 (Obj.ob_fval a))).
  reflexivity.
Qed.

Lemma eqb_sym (a b : float) : IEEE.eqb a b = IEEE.eqb b a.
Proof. unfold IEEE.eqb. apply SFeqb_sym. Qed.

Lemma item_eq_float_sym f g :
  Obj.item_eq f (Obj.OFloat g) = Obj.item_eq g (Obj.OFloat f).
Proof. simpl. rewrite same_object_sym, eqb_sym. reflexivity. Qed.

Lemma item_eq_number f o :
  is_number o = true ->
  exists k, Obj.item_eq f o = Ok k /\ (k = true <-> same_or_equal f o).
Proof.
  unfold same_or_equal.
  destruct o; try discriminate; intros _; simpl; eexists; (split; [reflexivity|]).
  - split; [auto|]. intros [H|H]; [discriminate H|exact H].
  - split; [auto|]. intros [H|H]; [discriminate H|exact H].
  - split.
    + intros H. apply orb_prop in H. destruct H as [H|H]; [|auto].
      left. apply same_object_eq in H. congruence.
    + intros [H|H].
      * injection H as ->. rewrite same_object_refl. reflexivity.
      * rewrite H. apply orb_true_r.
Qed.

Lemma item_eq_plain f o :
  plain o = true -> exists k, Obj.item_eq f o = Ok k.
Proof. destruct o; try discriminate; intros _; simpl; eauto. Qed.

Lemma same_or_equal_without_nan f o :
  IEEE.is_nan (Obj.ob_fval f) = false ->
  (same_or_equal f o <-> float_eq (Obj.ob_fval f) (number_value o) = true).
Proof.
  intros Hn. unfold same_or_equal. split; [|auto].
  intros [->|H]; [|exact H]. simpl. apply eqb_refl. exact Hn.
Qed.

(** ** Comparison with a pair *)

Lemma tuple_eq_two fx fy a b kx ky :
  Obj.item_eq fx a = Ok kx -> Obj.item_eq fy b = Ok ky ->
  Obj.tuple_eq [fx; fy] [a; b] = Ok (kx && ky).
Proof.
  intros Hx Hy. simpl. rewrite Hx. simpl. destruct kx; [|reflexivity].
  rewrite Hy. simpl. destruct ky; reflexivity.
Qed.

Lemma eq_constructed cls fx fy other :
  Obj.__eq__ (constructed cls fx fy) other =
  if negb (Obj.is_Iterable other) then Ok NotImplemented
  else (u <- Obj.py_tuple other ;;
        b <- Obj.tuple_eq [fx; fy] u ;;
        Ok (Returned b)).
Proof. reflexivity. Qed.

Lemma eq_op_vectors cls fx fy c gx gy :
  Obj.eq_op (constructed cls fx fy) (Obj.OVector (constructed c gx gy)) =
  (b <- Obj.tuple_eq [fx; fy] [Obj.OFloat gx; Obj.OFloat gy] ;; Ok b).
Proof.
  unfold Obj.eq_op, Obj.is_proper_subclass, Obj.reflected.
  rewrite !eq_constructed.
  cbn [Obj.is_Iterable negb Obj.py_tuple Obj.__iter__ Obj.x Obj.y constructed
       Obj._Vector2d__x Obj._Vector2d__y Obj.ob_type bind map].
  assert (Hsym : Obj.tuple_eq [gx; gy] [Obj.OFloat fx; Obj.OFloat fy]
                 = Obj.tuple_eq [fx; fy] [Obj.OFloat gx; Obj.OFloat gy]).
  { cbn [Obj.tuple_eq]. rewrite (item_eq_float_sym gx fx), (item_eq_float_sym gy fy).
    reflexivity. }
  destruct cls, c; rewrite ?Hsym;
    destruct (Obj.tuple_eq [fx; fy] [Obj.OFloat gx; Obj.OFloat gy]); reflexivity.
Qed.

Lemma eq_op_pair cls fx fy other a b kx ky :
  pair_of other a b ->
  Obj.item_eq fx a = Ok kx -> Obj.item_eq fy b = Ok ky ->
  Obj.eq_op (constructed cls fx fy) other = Ok (kx && ky).
Proof.
  intros Hp Hx Hy. destruct Hp.
  - rewrite eq_op_vectors, (tuple_eq_two _ _ _ _ _ _ Hx Hy). reflexivity.
  - unfold Obj.eq_op. cbn [Obj.is_proper_subclass]. rewrite eq_constructed.
    cbn [Obj.is_Iterable negb Obj.py_tuple bind].
    rewrite (tuple_eq_two _ _ _ _ _ _ Hx Hy). reflexivity.
  - unfold Obj.eq_op. cbn [Obj.is_proper_subclass]. rewrite eq_constructed.
    cbn [Obj.is_Iterable negb Obj.py_tuple bind].
    rewrite (tuple_eq_two _ _ _ _ _ _ Hx Hy). reflexivity.
Qed.

Lemma pair_of_numbers other a b :
  pair_of other a b -> is_number a = true /\ is_number b = true.
Proof. intros H. destruct H; auto. Qed.

(** ** Claim C5: equality with vectors and pairs *)

(** C5, as stated, fails: a vector that has a NaN coordinate compares
    equal to itself, while its coordinate sequence is not element-wise
    equal to itself, a NaN being unequal to every float.  The comparison
    of two tuples takes an item that is the same object for equal. *)
Lemma nan_vector_equals_itself :
  Obj.eq_op (constructed Vector2d nan_object zero_object)
            (Obj.OVector (constructed Vector2d nan_object zero_object)) = Ok true /\
  float_eq (Obj.ob_fval nan_object) (PyFloat (Obj.ob_fval nan_object)) = false.
Proof. split; vm_compute; reflexivity. Qed.

(** C5, amended: for every vector and every comparand that is a vector,
    or a tuple or a list of two numbers, [==] answers, and answers true if
    and only if each coordinate, in order, is the same object as the item
    or equals it; so a vector equals a tuple or a list of two numbers equal
    to its coordinates.  When no coordinate is a NaN, that is: if and only
    if the coordinate sequences are element-wise equal. *)
Theorem eq_iff_same_or_equal
  (cls : pyclass) (fx fy : Obj.float_object) (other a b : Obj.object) :
  pair_of other a b ->
  (exists r, Obj.eq_op (constructed cls fx fy) other = Ok r) /\
  (Obj.eq_op (constructed cls fx fy) other = Ok true <->
   same_or_equal fx a /\ same_or_equal fy b) /\
  (IEEE.is_nan (Obj.ob_fval fx) = false ->
   IEEE.is_nan (Obj.ob_fval fy) = false ->
   (Obj.eq_op (constructed cls fx fy) other = Ok true <->
    float_eq (Obj.ob_fval fx) (number_value a) = true /\
    float_eq (Obj.ob_fval fy) (number_value b) = true)).
Proof.
  intros Hp. destruct (pair_of_numbers _ _ _ Hp) as [Na Nb].
  destruct (item_eq_number fx a Na) as (kx & Hx & Ex).
  destruct (item_eq_number fy b Nb) as (ky & Hy & Ey).
  rewrite (eq_op_pair cls fx fy other a b kx ky Hp Hx Hy).
  assert (Hiff : Ok (kx && ky) = Ok true <-> same_or_equal fx a /\ same_or_equal fy b).
  { rewrite <- Ex, <- Ey. split.
    - intros [= H]. apply andb_prop in H. exact H.
    - intros [-> ->]. reflexivity. }
  split; [eauto|]. split; [exact Hiff|].
  intros Nx Ny. rewrite Hiff.
  rewrite (same_or_equal_without_nan fx a Nx), (same_or_equal_without_nan fy b Ny).
  reflexivity.
Qed.

Lemma eq_iff_same_or_equal_witness :
  (exists r, Obj.eq_op (constructed Vector2d nan_object zero_object)
               (Obj.OList [Obj.OFloat nan_object; Obj.OInt 0]) = Ok r) /\
  (Obj.eq_op (constructed Vector2d nan_object zero_object)
     (Obj.OList [Obj.OFloat nan_object; Obj.OInt 0]) = Ok true <->
   same_or_equal nan_object (Obj.OFloat nan_object) /\
   same_or_equal zero_object (Obj.OInt 0)) /\
  (IEEE.is_nan (Obj.ob_fval nan_object) = false ->
   IEEE.is_nan (Obj.ob_fval zero_object) = false ->
   (Obj.eq_op (constructed Vector2d nan_object zero_object)
      (Obj.OList [Obj.OFloat nan_object; Obj.OInt 0]) = Ok true <->
    float_eq (Obj.ob_fval nan_object) (number_value (Obj.OFloat nan_object)) = true /\
    float_eq (Obj.ob_fval zero_object) (number_value (Obj.OInt 0)) = true)).
Proof.
  apply (eq_iff_same_or_equal Vector2d nan_object zero_object
           (Obj.OList [Obj.OFloat nan_object; Obj.OInt 0])
           (Obj.OFloat nan_object) (Obj.OInt 0)).
  constructor; reflexivity.
Defined.

(** ** Claim C10: what equality raises *)

Lemma tuple_eq_plain t : forall u,
  forallb plain u = true ->
  exists b, Obj.tuple_eq t u = Ok b /\
            (List.length u <> List.length t -> b = false).
Proof.
  induction t as [|f t IH]; intros [|o u] Hu; simpl.
  - eexists. split; [reflexivity|]. intros H. contradiction.
  - eexists. split; [reflexivity|]. reflexivity.
  - eexists. split; [reflexivity|]. reflexivity.
  - simpl in Hu. apply andb_prop in Hu. destruct Hu as [Ho Hu].
    destruct (item_eq_plain f o Ho) as [k Hk]. rewrite Hk. simpl.
    destruct k.
    + destruct (IH u Hu) as (b & Hb & Hlen). exists b. split; [exact Hb|].
      intros H. apply Hlen. intros E. apply H. rewrite E. reflexivity.
    + eexists. split; [reflexivity|]. reflexivity.
Qed.

Lemma iter_of_tuple_vector w items :
  Obj.py_tuple (Obj.OVector w) = Ok items ->
  exists gx gy,
    w = constructed (Obj.ob_type w) gx gy /\
    items = [Obj.OFloat gx; Obj.OFloat gy].
Proof.
  destruct w as [c [gx|] [gy|]]; simpl; try discriminate.
  intros [= <-]. exists gx, gy. split; reflexivity.
Qed.

Lemma tuple_vector_raises w e :
  Obj.py_tuple (Obj.OVector w) = Raise e -> Obj.__iter__ w = Raise e.
Proof.
  simpl. destruct (Obj.__iter__ w); simpl; [discriminate|]. intros [= <-].
  reflexivity.
Qed.

(** C10, as stated, fails: comparing a vector with a generator whose
    first item raises, raises; and so does comparing it with a list of
    three items the first of which raises when it is compared with a
    float, the items being compared before the lengths. *)
Lemma eq_raises_from_comparand :
  Obj.__eq__ (constructed Vector2d one_object two_object) raising_generator
    = Raise ValueError /\
  Obj.eq_op (constructed Vector2d one_object two_object) raising_generator
    = Raise ValueError /\
  Obj.eq_op (constructed Vector2d one_object two_object)
            (Obj.OList [raising_item; Obj.OInt 2; Obj.OInt 3])
    = Raise ValueError.
Proof. repeat split; reflexivity. Qed.

(** C10, amended: for every vector, comparing it with an object that is
    not iterable returns [NotImplemented], and [==] then evaluates to
    false for [None] and the numbers; comparing it with an iterable raises
    what iterating the iterable raises; and when the iteration does not
    raise and the items are of builtin types or vectors, whose comparison
    with a float cannot raise, the comparison returns, and returns false
    when the items are not exactly two. *)
Theorem eq_raises_only_from_comparand
  (cls : pyclass) (fx fy : Obj.float_object) (other : Obj.object) :
  (Obj.is_Iterable other = false ->
   Obj.__eq__ (constructed cls fx fy) other = Ok NotImplemented /\
   (plain other = true -> Obj.eq_op (constructed cls fx fy) other = Ok false)) /\
  (forall e, Obj.is_Iterable other = true -> Obj.py_tuple other = Raise e ->
     Obj.__eq__ (constructed cls fx fy) other = Raise e /\
     Obj.eq_op (constructed cls fx fy) other = Raise e) /\
  (forall items, Obj.is_Iterable other = true -> Obj.py_tuple other = Ok items ->
     forallb plain items = true ->
     exists b,
       Obj.__eq__ (constructed cls fx fy) other = Ok (Returned b) /\
       Obj.eq_op (constructed cls fx fy) other = Ok b /\
       (List.length items <> 2%nat -> b = false)).
Proof.
  split; [|split].
  - intros Hi. rewrite eq_constructed, Hi. split; [reflexivity|].
    intros Hp. unfold Obj.eq_op.
    destruct other; try discriminate; reflexivity.
  - intros e Hi Ht.
    assert (He : Obj.__eq__ (constructed cls fx fy) other = Raise e).
    { rewrite eq_constructed, Hi, Ht. reflexivity. }
    split; [exact He|]. unfold Obj.eq_op.
    destruct other as [| | | | | | | |w|it tu ef re af]; try discriminate.
    + apply tuple_vector_raises in Ht.
      assert (Hr : Obj.reflected (constructed cls fx fy) (Obj.OVector w) = Raise e).
      { unfold Obj.reflected, Obj.__eq__. cbn [Obj.is_Iterable negb].
        rewrite Ht. reflexivity. }
      rewrite He, Hr. destruct (Obj.is_proper_subclass _ _); reflexivity.
    + cbn [Obj.is_proper_subclass]. rewrite He. reflexivity.
  - intros items Hi Ht Hpl.
    destruct (tuple_eq_plain [fx; fy] items Hpl) as (b & Hb & Hlen).
    exists b.
    assert (He : Obj.__eq__ (constructed cls fx fy) other = Ok (Returned b)).
    { rewrite eq_constructed, Hi, Ht. cbn [negb bind]. rewrite Hb. reflexivity. }
    split; [exact He|]. split; [|exact Hlen].
    destruct other as [| | | | | | | |w|it tu ef re af];
      try discriminate;
      try (unfold Obj.eq_op; cbn [Obj.is_proper_subclass]; rewrite He; reflexivity).
    destruct (iter_of_tuple_vector w items Ht) as (gx & gy & Hw & ->).
    rewrite Hw, eq_op_vectors, Hb. reflexivity.
Qed.

(** ** Errors of construction *)

Lemma float_from_string_raises sp s e :
  float_from_string sp s = Raise e -> e = ValueError.
Proof.
  unfold float_from_string.
  destruct (drop_underscores " " s) as [s1|]; [|congruence].
  destruct (parse_float (strip sp s1)); congruence.
Qed.

Lemma float_of_int_raises n e :
  float_of_int n = Raise e -> e = OverflowError.
Proof.
  unfold float_of_int. destruct (IEEE.is_finite _); congruence.
Qed.

Lemma py_float_raises v e :
  py_float v = Raise e -> e = conversion_error v.
Proof.
  destruct v; simpl; try congruence;
    eauto using float_from_string_raises, float_of_int_raises.
Qed.

(** ** Construction of objects *)









(** ** The two layers agree *)

Lemma float_value_scalar o vo :
  scalar_value o = Some vo -> Obj.float_value o = py_float vo.
Proof. destruct o; simpl; intros [= <-]; reflexivity. Qed.

Lemma py_float_value o n :
  Obj.py_float o n =
  match Obj.float_value o with
  | Ok f =>
      match o with
      | Obj.OFloat g => (Ok g, n)
      | _ => (Ok (Obj.mkFloat n f), n + 1)
      end
  | Raise e => (Raise e, n)
  end.
Proof. destruct o; simpl; try reflexivity; destruct (py_float _); reflexivity. Qed.

Lemma py_float_fval o n :
  match fst (Obj.py_float o n), Obj.float_value o with
  | Ok g, Ok f => Obj.ob_fval g = f
  | Raise e, Raise e' => e = e'
  | _, _ => False
  end.
Proof.
  rewrite py_float_value.
  destruct (Obj.float_value o) as [f|e] eqn:E; [|reflexivity].
  destruct o; simpl in *; try reflexivity. congruence.
Qed.

(** Construction of an object from scalars is construction by values:
    the same exception, or an instance of the same class that holds the
    same doubles. *)
Lemma call_agrees_with_init cls a b va vb n :
  scalar_value a = Some va -> scalar_value b = Some vb ->
  match fst (Obj.call cls [a; b] n), __init__ cls va vb with
  | Ok v, Ok i => value_of_vector v = Some i
  | Raise e, Raise e' => e = e'
  | _, _ => False
  end.
Proof.
  intros Ha Hb. unfold Obj.call, Obj.__init__, __init__.
  rewrite <- (float_value_scalar a va Ha), <- (float_value_scalar b vb Hb).
  pose proof (py_float_fval a n) as Pa.
  destruct (Obj.py_float a n) as [[fx|e] n1]; simpl in Pa;
    destruct (Obj.float_value a) as [fa|ea]; try contradiction;
    [|subst; reflexivity].
  cbn [Obj.ob_type Obj._Vector2d__x Obj._Vector2d__y bind].
  pose proof (py_float_fval b n1) as Pb.
  destruct (Obj.py_float b n1) as [[fy|e] n2]; simpl in Pb;
    destruct (Obj.float_value b) as [fb|eb]; try contradiction;
    [|subst; reflexivity].
  simpl. unfold value_of_vector. simpl. subst. reflexivity.
Qed.

(** Off the NaNs, [==] between two vectors, and the hash of a vector,
    are those of their values. *)
Lemma eq_op_agrees_on_vectors cls fx fy c gx gy :
  IEEE.is_nan (Obj.ob_fval fx) = false ->
  IEEE.is_nan (Obj.ob_fval fy) = false ->
  Obj.eq_op (constructed cls fx fy) (Obj.OVector (constructed c gx gy)) =
  eq_op (mkInstance cls (Obj.ob_fval fx) (Obj.ob_fval fy))
        (PyVector (mkInstance c (Obj.ob_fval gx) (Obj.ob_fval gy))).
Proof.
  intros Nx Ny. rewrite eq_op_vectors, eq_op_vector. cbn [x y].
  assert (H : forall f g, IEEE.is_nan (Obj.ob_fval f) = false ->
            Obj.item_eq f (Obj.OFloat g)
            = Ok (IEEE.eqb (Obj.ob_fval f) (Obj.ob_fval g))).
  { intros f g Hn. simpl. destruct (Obj.same_object f g) eqn:E; [|reflexivity].
    apply same_object_eq in E. subst g. rewrite (eqb_refl _ Hn). reflexivity. }
  rewrite (tuple_eq_two fx fy _ _ _ _ (H fx gx Nx) (H fy gy Ny)). reflexivity.
Qed.

Lemma hash_agrees cls fx fy :
  IEEE.is_nan (Obj.ob_fval fx) = false ->
  IEEE.is_nan (Obj.ob_fval fy) = false ->
  exists h,
    Obj.__hash__ (constructed cls fx fy) = Ok h /\
    __hash__ (mkInstance cls (Obj.ob_fval fx) (Obj.ob_fval fy)) = Hash h.
Proof.
  intros Nx Ny. eexists. split; [reflexivity|].
  unfold __hash__, hash_tuple, hash_items, Obj.hash_float_object. cbn [x y].
  unfold IEEE.is_nan in Nx, Ny. unfold hash_float.
  destruct (IEEE.fval (Obj.ob_fval fx)); try discriminate;
    destruct (IEEE.fval (Obj.ob_fval fy)); try discriminate; reflexivity.
Qed.

(** ** Claim C7: the error that construction raises *)

Lemma float_of_int_beyond_doubles :
  float_of_int (2 ^ 1024) = Raise OverflowError.
Proof. vm_compute. reflexivity. Qed.

(** [__init__] assigns [self.__x] before it converts [y]: when the
    second conversion raises, the instance that [__init__] was handed has
    its first slot assigned and its second left as it was; [cls(x, y)]
    drops that instance and returns none. *)
Lemma init_second_conversion_raises (self : Obj.vector) (next : Z) :
  Obj.__init__ self (Obj.OInt 1) (Obj.OStr "three") next =
  (Raise ValueError,
   Obj.mkVector (Obj.ob_type self)
                (Some (Obj.mkFloat next (float_of_Z 1)))
                (Obj._Vector2d__y self),
   next + 1) /\
  Obj.call (Obj.ob_type self) [Obj.OInt 1; Obj.OStr "three"] next =
  (Raise ValueError, next + 1).
Proof.
  assert (H1 : Obj.py_float (Obj.OInt 1) next
               = (Ok (Obj.mkFloat next (float_of_Z 1)), next + 1)).
  { unfold Obj.py_float.
    replace (Obj.float_value (Obj.OInt 1)) with (Ok (float_of_Z 1))
      by (vm_compute; reflexivity).
    reflexivity. }
  assert (H2 : forall k, Obj.py_float (Obj.OStr "three") k = (Raise ValueError, k)).
  { intros k. unfold Obj.py_float.
    replace (Obj.float_value (Obj.OStr "three")) with (@Raise float ValueError)
      by (vm_compute; reflexivity).
    reflexivity. }
  unfold Obj.call, Obj.__init__. rewrite H1.
  cbn [Obj.ob_type Obj._Vector2d__x Obj._Vector2d__y]. rewrite H2.
  split; reflexivity.
Qed.

(** C7, at the failing input: the [int] [2^1024] is a number that cannot
    be converted to a float, and construction from it, in either position,
    raises [OverflowError], which is no [ValueError]; no instance is
    returned. *)
Theorem init_int_beyond_doubles_raises_overflow
  (cls : pyclass) (y : Obj.object) (next : Z) :
  Obj.call cls [Obj.OInt (2 ^ 1024); y] next = (Raise OverflowError, next) /\
  Obj.call cls [Obj.OInt 0; Obj.OInt (2 ^ 1024)] next
    = (Raise OverflowError, next + 1) /\
  __init__ cls (PyInt (2 ^ 1024)) (PyInt 0) = Raise OverflowError /\
  OverflowError <> ValueError.
Proof.
  assert (Hbig : forall k, Obj.py_float (Obj.OInt (2 ^ 1024)) k
                           = (Raise OverflowError, k)).
  { intros k. unfold Obj.py_float, Obj.float_value. cbn [py_float].
    rewrite float_of_int_beyond_doubles. reflexivity. }
  assert (H0 : Obj.py_float (Obj.OInt 0) next
               = (Ok (Obj.mkFloat next (float_of_Z 0)), next + 1)).
  { unfold Obj.py_float.
    replace (Obj.float_value (Obj.OInt 0)) with (Ok (float_of_Z 0))
      by (vm_compute; reflexivity).
    reflexivity. }
  split; [|split; [|split]].
  - unfold Obj.call, Obj.__init__. rewrite Hbig. reflexivity.
  - unfold Obj.call, Obj.__init__. rewrite H0.
    cbn [Obj.ob_type Obj._Vector2d__x Obj._Vector2d__y]. rewrite Hbig. reflexivity.
  - unfold __init__. cbn [py_float]. rewrite float_of_int_beyond_doubles.
    reflexivity.
  - discriminate.
Qed.

(** ** Claim C9: base and derived instances of the same inputs *)

(** Whether a conversion raises, and what, depends neither on the class
    nor on the addresses in use. *)
Lemma py_float_outcome o n m :
  match fst (Obj.py_float o n), fst (Obj.py_float o m) with
  | Ok _, Ok _ => True
  | Raise e, Raise e' => e = e'
  | _, _ => False
  end.
Proof.
  rewrite !py_float_value.
  destruct (Obj.float_value o); [|reflexivity].
  destruct o; exact I.
Qed.

(** The two classes accept the same arguments, and raise the same
    exception for those they refuse. *)
Lemma call_outcome_shared a b n m :
  match fst (Obj.call Vector2d [a; b] n), fst (Obj.call ShortVector2d [a; b] m) with
  | Ok _, Ok _ => True
  | Raise e, Raise e' => e = e'
  | _, _ => False
  end.
Proof.
  unfold Obj.call, Obj.__init__.
  pose proof (py_float_outcome a n m) as Pa.
  destruct (Obj.py_float a n) as [[fx|e] n1];
    destruct (Obj.py_float a m) as [[gx|e'] m1]; simpl in Pa; try contradiction;
    [|exact Pa].
  cbn [Obj.ob_type Obj._Vector2d__x Obj._Vector2d__y].
  pose proof (py_float_outcome b n1 m1) as Pb.
  destruct (Obj.py_float b n1) as [[fy|e] n2];
    destruct (Obj.py_float b m1) as [[gy|e'] m2]; simpl in Pb; try contradiction;
    [exact I|exact Pb].
Qed.



(** ** Claim C8: formatting *)

(** C8: for every vector and format specifier, whatever the float
    formatter and the C library compute: if the specifier ends with ['p'],
    the result is ["<m, a>"] where [m] and [a] are the magnitude
    [hypot(x, y)] and the angle [atan2(y, x)], each formatted with the
    specifier less its last character; otherwise it is ["(x, y)"] with each
    coordinate formatted with the whole specifier; an exception of the
    formatter propagates.  In particular, where the formatter renders the
    empty specifier as [repr] does, (1, 0) formats to ["(1.0, 0.0)"]; and
    where it renders ['.2f'] with two decimals and the C library returns
    the correctly rounded magnitude and angle of (1, 1), the specifier
    ['.2fp'] formats (1, 1) to ["<1.41, 0.79>"]. *)

Theorem format_polar_or_cartesian
  (hypot atan2 : float -> float -> float)
  (format_float : float -> string -> result string) :
  (forall (self : instance) (spec : string),
     (endswith spec "p" = true ->
      __format__ hypot atan2 format_float self spec =
      (m <- format_float (hypot (x self) (y self)) (drop_last spec) ;;
       a <- format_float (atan2 (y self) (x self)) (drop_last spec) ;;
       Ok ("<" ++ m ++ ", " ++ a ++ ">")%string)) /\
     (endswith spec "p" = false ->
      __format__ hypot atan2 format_float self spec =
      (fx <- format_float (x self) spec ;;
       fy <- format_float (y self) spec ;;
       Ok ("(" ++ fx ++ ", " ++ fy ++ ")")%string))) /\
  (forall cls,
     format_float (float_of_Z 1) EmptyString = Ok (float_repr (float_of_Z 1)) ->
     format_float (float_of_Z 0) EmptyString = Ok (float_repr (float_of_Z 0)) ->
     __format__ hypot atan2 format_float
       (mkInstance cls (float_of_Z 1) (float_of_Z 0)) EmptyString
     = Ok "(1.0, 0.0)"%string) /\
  (forall cls,
     hypot (float_of_Z 1) (float_of_Z 1) = sqrt2 ->
     atan2 (float_of_Z 1) (float_of_Z 1) = quarter_pi ->
     format_float sqrt2 ".2f"%string = Ok (float_fixed 2 sqrt2) ->
     format_float quarter_pi ".2f"%string = Ok (float_fixed 2 quarter_pi) ->
     __format__ hypot atan2 format_float
       (mkInstance cls (float_of_Z 1) (float_of_Z 1)) ".2fp"%string
     = Ok "<1.41, 0.79>"%string).
Proof.
  assert (Hgen : forall (self : instance) (spec : string),
     (endswith spec "p" = true ->
      __format__ hypot atan2 format_float self spec =
      (m <- format_float (hypot (x self) (y self)) (drop_last spec) ;;
       a <- format_float (atan2 (y self) (x self)) (drop_last spec) ;;
       Ok ("<" ++ m ++ ", " ++ a ++ ">")%string)) /\
     (endswith spec "p" = false ->
      __format__ hypot atan2 format_float self spec =
      (fx <- format_float (x self) spec ;;
       fy <- format_float (y self) spec ;;
       Ok ("(" ++ fx ++ ", " ++ fy ++ ")")%string))).
  { intros self spec. unfold __format__, __abs__, angle, __iter__.
    split; intros ->; cbn [map_result];
      match goal with
      | |- context [format_float ?c ?s] =>
          destruct (format_float c s) as [s1|e1]; cbn [bind]; [|reflexivity]
      end;
      match goal with
      | |- context [format_float ?c ?s] =>
          destruct (format_float c s) as [s2|e2]; cbn [bind]; reflexivity
      end. }
  split; [exact Hgen|]. split.
  - intros cls H1 H0.
    destruct (Hgen (mkInstance cls (float_of_Z 1) (float_of_Z 0)) EmptyString) as [_ Hc].
    rewrite (Hc eq_refl). cbn [x y]. rewrite H1, H0. vm_compute. reflexivity.
  - intros cls Hh Ha Hf1 Hf2.
    destruct (Hgen (mkInstance cls (float_of_Z 1) (float_of_Z 1)) ".2fp"%string) as [Hp _].
    rewrite (Hp eq_refl). cbn [x y]. rewrite Hh, Ha.
    change (drop_last ".2fp"%string) with ".2f"%string.
    rewrite Hf1, Hf2. vm_compute. reflexivity.
Qed.

Lemma format_polar_or_cartesian_witness :
  let hypot := fun _ _ : float => sqrt2 in
  let atan2 := fun _ _ : float => quarter_pi in
  let format_float := fun (c : float) (spec : string) =>
    if String.eqb spec EmptyString then Ok (float_repr c)
    else Ok (float_fixed 2 c) in
  __format__ hypot atan2 format_float
    (mkInstance Vector2d (float_of_Z 1) (float_of_Z 0)) EmptyString
  = Ok "(1.0, 0.0)"%string /\
  __format__ hypot atan2 format_float
    (mkInstance Vector2d (float_of_Z 1) (float_of_Z 1)) ".2fp"%string
  = Ok "<1.41, 0.79>"%string.
Proof.
  intros hypot atan2 format_float.
  destruct (format_polar_or_cartesian hypot atan2 format_float) as (_ & Hc & Hp).
  split.
  - apply Hc; reflexivity.
  - apply Hp; reflexivity.
Defined.

(* ================================================================= *)
(** * Part III: further properties of the code *)
(* ================================================================= *)

(** ** Single precision values survive the way through double precision *)

Lemma div_half_even_mul p d : 0 < d -> div_half_even (p * d) d = p.
Proof.
  intros Hd. unfold div_half_even.
  rewrite Z.mod_mul, Z.div_mul by lia.
  replace (2 * 0 <? d) with true by (symmetry; apply Z.ltb_lt; lia).
  reflexivity.
Qed.

Lemma finish_canonical prec emax s p e :
  0 < prec ->
  valid_binary prec emax (S754_finite s p e) = true ->
  finish prec emax s (Zpos p) e = S754_finite s p e.
Proof.
  intros Hprec Hv. simpl in Hv. unfold bounded, canonical_mantissa in Hv.
  apply andb_prop in Hv. destruct Hv as [Hc Hb].
  apply Z.eqb_eq in Hc.
  unfold finish, shr_fexp.
  change (Zdigits2 (Zpos p)) with (Zpos (digits2_pos p)).
  rewrite Hc, Z.sub_diag. cbn [shr shr_record_of_loc shr_m].
  rewrite Hb. reflexivity.
Qed.

Lemma narrow_of_widen_spec s p e2 :
  valid_binary 24 128 (S754_finite s p e2) = true ->
  exists mz e3,
    binary_round 53 1024 s p e2 = S754_finite s mz e3 /\
    binary_round 24 128 s mz e3 = S754_finite s p e2.
Proof.
  intros Hv.
  destruct (valid_finite_cases 24 128 ltac:(lia) s p e2 Hv) as [He Hc].
  unfold IEEE.mw, emin in Hc. change (24 - 1) with 23 in Hc. change (23 + 1) with 24 in Hc.
  assert (Hp24 : Zpos p < 2 ^ 24).
  { destruct Hc as [[Hp _]|[Hp _]]; [lia|].
    assert (2 ^ 23 < 2 ^ 24) by (apply Z.pow_lt_mono_r; lia). lia. }
  assert (Hemin : -149 <= e2) by lia.
  assert (Hd : Zpos (digits2_pos p) <= 24).
  { change (Zpos (digits2_pos p)) with (Zdigits2 (Zpos p)).
    apply Zdigits2_lt_pow2; lia. }
  assert (Hd0 : 0 < Zpos (digits2_pos p)) by lia.
  assert (Hcanon : SpecFloat.fexp 24 128 (Zpos (digits2_pos p) + e2) = e2).
  { simpl in Hv. unfold bounded, canonical_mantissa in Hv.
    apply andb_prop in Hv. destruct Hv as [Hv _]. apply Z.eqb_eq in Hv. exact Hv. }
  assert (Hf3 : SpecFloat.fexp 53 1024 (Zpos (digits2_pos p) + e2) <= e2).
  { unfold SpecFloat.fexp, emin. lia. }
  destruct (binary_round_left 53 1024 s p e2 Hf3) as (mz & Hmz & Hw).
  set (e3 := SpecFloat.fexp 53 1024 (Zpos (digits2_pos p) + e2)) in *.
  assert (He3 : e3 = Zpos (digits2_pos p) + e2 - 53)
    by (unfold e3, SpecFloat.fexp, emin; lia).
  replace (e3 <=? 1024 - 53) with true in Hw by (symmetry; apply Z.leb_le; lia).
  exists mz, e3. split; [exact Hw|].
  assert (Hdz : Zpos (digits2_pos mz) + e3 = Zpos (digits2_pos p) + e2).
  { change (Zpos (digits2_pos mz)) with (Zdigits2 (Zpos mz)).
    rewrite Hmz, Zdigits2_mul_pow2 by lia.
    change (Zdigits2 (Zpos p)) with (Zpos (digits2_pos p)). lia. }
  pose proof (binary_round_right 24 128 s mz e3) as Hr.
  rewrite Hdz, Hcanon in Hr. specialize (Hr ltac:(lia)).
  rewrite Hr, Hmz, div_half_even_mul by (apply pow2_pos; lia).
  apply finish_canonical; [lia|exact Hv].
Qed.

Lemma single_of_double_of_single (f : binary32) :
  single_of_double (double_of_single f) = f.
Proof.
  apply binary_ext. destruct f as [fv Hv].
  unfold single_of_double, double_of_single, IEEE.convert. cbn [IEEE.fval].
  destruct fv as [s|s| |s p e2]; try reflexivity.
  destruct (narrow_of_widen_spec s p e2 Hv) as (mz & e3 & Hw & Hn).
  rewrite fval_round by lia. rewrite Hw.
  rewrite fval_round by lia. exact Hn.
Qed.

(** ** Integers within the range of the doubles *)

Lemma binary_round_int_finite s p :
  Zpos p < 2 ^ 1023 ->
  exists mz e3, binary_round 53 1024 s p 0 = S754_finite s mz e3.
Proof.
  intros Hp.
  assert (Hd0 : 0 < Zpos (digits2_pos p)) by lia.
  assert (Hd : Zpos (digits2_pos p) <= 1023).
  { change (Zpos (digits2_pos p)) with (Zdigits2 (Zpos p)).
    apply Zdigits2_lt_pow2; lia. }
  destruct (Z_le_gt_dec (Zpos (digits2_pos p)) 53) as [Hle|Hgt].
  - assert (Hf : SpecFloat.fexp 53 1024 (Zpos (digits2_pos p) + 0) <= 0).
    { unfold SpecFloat.fexp, emin. lia. }
    destruct (binary_round_left 53 1024 s p 0 Hf) as (mz & _ & Hr).
    set (e3 := SpecFloat.fexp 53 1024 (Zpos (digits2_pos p) + 0)) in *.
    replace (e3 <=? 1024 - 53) with true in Hr by (symmetry; apply Z.leb_le; lia).
    eauto.
  - assert (Hf : SpecFloat.fexp 53 1024 (Zpos (digits2_pos p) + 0)
                 = Zpos (digits2_pos p) - 53).
    { unfold SpecFloat.fexp, emin. lia. }
    pose proof (binary_round_right 53 1024 s p 0) as Hr.
    rewrite Hf in Hr. specialize (Hr ltac:(lia)).
    set (n := Zpos (digits2_pos p) - 53) in *.
    replace (n - 0) with n in Hr by lia.
    pose proof (pow2_pos n ltac:(lia)) as Hpn.
    destruct (div_half_even_error (Zpos p) (2 ^ n) ltac:(lia) Hpn) as [_ Hq].
    cbv zeta in Hq.
    set (q := div_half_even (Zpos p) (2 ^ n)) in *.
    set (q0 := Zpos p / 2 ^ n) in *.
    assert (Hdq0 : Zdigits2 q0 = 53).
    { unfold q0. rewrite Zdigits2_div_pow2 by lia.
      change (Zdigits2 (Zpos p)) with (Zpos (digits2_pos p)). lia. }
    assert (Hq0 : 2 ^ 52 <= q0 < 2 ^ 53).
    { assert (0 < q0).
      { destruct (Z.eq_dec q0 0) as [E|]; [rewrite E in Hdq0; discriminate|].
        assert (0 <= q0) by (apply Z.div_pos; lia). lia. }
      pose proof (Zdigits2_bounds q0 ltac:(lia)) as Hb. rewrite Hdq0 in Hb.
      exact Hb. }
    destruct (finish_value 53 1024 ltac:(lia) s q q0 n) as (mz & e2 & Hfin & _ & He2 & _).
    { lia. } { lia. } { lia. }
    { rewrite Hdq0. unfold SpecFloat.fexp, emin. lia. }
    assert (Zdigits2 q <= 54).
    { apply Zdigits2_lt_pow2; [|lia]. change (2 ^ 54) with (2 * 2 ^ 53). lia. }
    assert (e2 <= 971) by (rewrite He2; unfold SpecFloat.fexp, emin; lia).
    replace (e2 <=? 1024 - 53) with true in Hfin by (symmetry; apply Z.leb_le; lia).
    rewrite Hr, Hfin. eauto.
Qed.

Lemma float_of_int_ok n :
  Z.abs n < 2 ^ 1023 -> exists f, float_of_int n = Ok f.
Proof.
  intros Hn. unfold float_of_int, IEEE.is_finite.
  rewrite fval_of_Z by lia.
  destruct n as [|p|p]; cbn [binary_normalize].
  - eauto.
  - destruct (binary_round_int_finite false p ltac:(lia)) as (mz & e3 & Hr).
    rewrite Hr. eauto.
  - destruct (binary_round_int_finite true p ltac:(lia)) as (mz & e3 & Hr).
    rewrite Hr. eauto.
Qed.

(** ** Items of a memoryview *)

Lemma le_int_range bs : 0 <= le_int bs < 256 ^ Z.of_nat (List.length bs).
Proof.
  induction bs as [|b bs IH].
  - simpl. lia.
  - cbn [le_int List.length]. rewrite Nat2Z.inj_succ, Z.pow_succ_r by lia.
    pose proof (Z_of_byte_range b). lia.
Qed.

Lemma int_from_bytes_range order bs :
  0 <= int_from_bytes order bs < 256 ^ Z.of_nat (List.length bs).
Proof.
  destruct order; simpl.
  - apply le_int_range.
  - rewrite <- (length_rev bs). apply le_int_range.
Qed.

Lemma length_chunks {A : Type} (count size : nat) : forall l : list A,
  List.length (chunks count size l) = count.
Proof.
  induction count; intros l; simpl; [reflexivity|]. rewrite IHcount. reflexivity.
Qed.

Lemma chunks_lengths {A : Type} (size count : nat) : forall l : list A,
  List.length l = (count * size)%nat ->
  Forall (fun c => List.length c = size) (chunks count size l).
Proof.
  induction count; intros l Hl; simpl; constructor.
  - rewrite length_firstn. simpl in Hl. lia.
  - apply IHcount. rewrite length_skipn. simpl in Hl. lia.
Qed.

Lemma native_format_sizes c fmt :
  native_format c = Some fmt ->
  (0 < itemsize fmt)%nat /\
  match fmt with
  | FmtInt size _ => (size <= 8)%nat
  | _ => True
  end.
Proof.
  destruct c as [[] [] [] [] [] [] [] []]; simpl; intros H;
    try discriminate H; injection H as <-; simpl; split; auto; lia.
Qed.

Lemma py_float_unpack_single order fmt bs :
  fmt <> FmtChar ->
  match fmt with FmtInt size _ => (size <= 8)%nat | _ => True end ->
  List.length bs = itemsize fmt ->
  exists f, py_float (unpack_single order fmt bs) = Ok f.
Proof.
  intros Hc Hs Hl.
  assert (Hbig : 2 ^ 64 < 2 ^ 1023) by (apply Z.pow_lt_mono_r; lia).
  assert (Hsmall : 1 < 2 ^ 64) by reflexivity.
  destruct fmt as [| |size signed| |]; try congruence; simpl.
  - apply float_of_int_ok.
    destruct (negb _); [change (Z.abs 1) with 1|change (Z.abs 0) with 0]; lia.
  - apply float_of_int_ok.
    pose proof (int_from_bytes_range order bs) as Hr. simpl in Hl. rewrite Hl in Hr.
    assert (256 ^ Z.of_nat size <= 2 ^ 64).
    { change 256 with (2 ^ 8). rewrite <- Z.pow_mul_r by lia.
      apply Z.pow_le_mono_r; lia. }
    unfold to_signed.
    destruct signed; [|lia].
    destruct size as [|k].
    + simpl in Hr. change (2 ^ (8 * Z.of_nat 0 - 1)) with 0.
      destruct (int_from_bytes order bs <? 0); lia.
    + set (half := 2 ^ (8 * Z.of_nat (S k) - 1)) in *.
      assert (0 < half) by (apply pow2_pos; lia).
      assert (2 * half = 256 ^ Z.of_nat (S k)).
      { unfold half. rewrite <- Z.pow_succ_r by lia.
        change 256 with (2 ^ 8). rewrite <- Z.pow_mul_r by lia. f_equal. lia. }
      destruct (int_from_bytes order bs <? half) eqn:E;
        [apply Z.ltb_lt in E|apply Z.ltb_ge in E]; lia.
  - eauto.
  - eauto.
Qed.

(** ** Decoding: errors and the type codes it accepts *)

Lemma call_arity cls (args : list value) :
  List.length args <> 2%nat -> call cls args = Raise TypeError.
Proof.
  destruct args as [|a [|b [|c args]]]; simpl; intros H; try reflexivity.
  contradiction.
Qed.

Lemma frombytes_cons order cls b rest :
  frombytes order cls (b :: rest) =
  (memv <- memoryview_cast order (chr (Z_of_byte b)) rest ;; call cls memv).
Proof. reflexivity. Qed.

Lemma memoryview_cast_items order c fmt (bs : list byte) :
  native_format c = Some fmt ->
  (List.length bs mod itemsize fmt = 0)%nat ->
  memoryview_cast order c bs =
  Ok (map (unpack_single order fmt)
          (chunks (List.length bs / itemsize fmt) (itemsize fmt) bs)).
Proof.
  intros Hf Hm. unfold memoryview_cast. rewrite Hf, Hm. reflexivity.
Qed.

Lemma memoryview_cast_ragged order c fmt (bs : list byte) :
  native_format c = Some fmt ->
  (List.length bs mod itemsize fmt <> 0)%nat ->
  memoryview_cast order c bs = Raise TypeError.
Proof.
  intros Hf Hm. unfold memoryview_cast. rewrite Hf.
  apply Nat.eqb_neq in Hm. rewrite Hm. reflexivity.
Qed.

(** Decoding raises [IndexError] on empty bytes and [ValueError] on bytes
    whose first byte is no format character of [memoryview.cast], whatever
    follows it. *)
Theorem frombytes_rejects_unknown_typecode
  (order : byteorder) (cls : pyclass) (b : byte) (rest : list byte) :
  native_format (chr (Z_of_byte b)) = None ->
  frombytes order cls [] = Raise IndexError /\
  frombytes order cls (b :: rest) = Raise ValueError.
Proof.
  intros H. split; [reflexivity|].
  rewrite frombytes_cons. unfold memoryview_cast. rewrite H. reflexivity.
Qed.

Lemma frombytes_rejects_unknown_typecode_witness :
  frombytes LittleEndian Vector2d [] = Raise IndexError /\
  frombytes LittleEndian Vector2d
    (Byte.x78 :: int_to_bytes LittleEndian 8 0 ++ int_to_bytes LittleEndian 8 0)
  = Raise ValueError.
Proof.
  apply (frombytes_rejects_unknown_typecode LittleEndian Vector2d Byte.x78).
  reflexivity.
Defined.

(** Decoding raises [TypeError] whenever the bytes after a valid type
    code are not exactly two items of its size: either the cast fails, or
    the constructor receives a number of arguments other than two. *)
Theorem frombytes_rejects_wrong_size
  (order : byteorder) (cls : pyclass) (b : byte) (rest : list byte)
  (fmt : item_format) :
  native_format (chr (Z_of_byte b)) = Some fmt ->
  List.length rest <> (2 * itemsize fmt)%nat ->
  frombytes order cls (b :: rest) = Raise TypeError.
Proof.
  intros Hf Hl. rewrite frombytes_cons.
  destruct (native_format_sizes _ _ Hf) as [Hpos _].
  destruct (Nat.eq_dec (List.length rest mod itemsize fmt) 0) as [Hm|Hm].
  - rewrite (memoryview_cast_items order _ fmt rest Hf Hm). cbn [bind].
    apply call_arity. rewrite length_map, length_chunks.
    intros Hd. apply Hl.
    pose proof (Nat.div_mod_eq (List.length rest) (itemsize fmt)). lia.
  - rewrite (memoryview_cast_ragged order _ fmt rest Hf Hm). reflexivity.
Qed.

Lemma frombytes_rejects_wrong_size_witness :
  frombytes BigEndian ShortVector2d
    (Byte.x64 :: int_to_bytes BigEndian 8 0) = Raise TypeError.
Proof.
  apply (frombytes_rejects_wrong_size BigEndian ShortVector2d Byte.x64
           (int_to_bytes BigEndian 8 0) FmtDouble).
  - reflexivity.
  - rewrite length_int_to_bytes. discriminate.
Defined.

(** Decoding accepts every numeric type code of [memoryview.cast], not
    only ['d'] and ['f']: two items of an integer or boolean format are
    converted with [float()], which cannot fail on them, and become the
    coordinates of a vector of the class that decoding is invoked on. *)
Theorem frombytes_accepts_numeric_typecodes
  (order : byteorder) (cls : pyclass) (b : byte) (rest : list byte)
  (fmt : item_format) :
  native_format (chr (Z_of_byte b)) = Some fmt ->
  fmt <> FmtChar ->
  List.length rest = (2 * itemsize fmt)%nat ->
  exists fx fy,
    py_float (unpack_single order fmt (firstn (itemsize fmt) rest)) = Ok fx /\
    py_float (unpack_single order fmt (skipn (itemsize fmt) rest)) = Ok fy /\
    frombytes order cls (b :: rest) = Ok (mkInstance cls fx fy).
Proof.
  intros Hf Hc Hl. rewrite frombytes_cons.
  destruct (native_format_sizes _ _ Hf) as [Hpos Hsz].
  assert (Hm : (List.length rest mod itemsize fmt = 0)%nat).
  { rewrite Hl. apply Nat.Div0.mod_mul. }
  assert (Hd : (List.length rest / itemsize fmt = 2)%nat).
  { rewrite Hl. apply Nat.div_mul. lia. }
  rewrite (memoryview_cast_items order _ fmt rest Hf Hm), Hd. cbn [bind chunks map].
  assert (Hl1 : List.length (firstn (itemsize fmt) rest) = itemsize fmt)
    by (rewrite length_firstn; lia).
  assert (Hl2 : List.length (firstn (itemsize fmt) (skipn (itemsize fmt) rest))
                = itemsize fmt)
    by (rewrite length_firstn, length_skipn; lia).
  assert (Hall : firstn (itemsize fmt) (skipn (itemsize fmt) rest)
                 = skipn (itemsize fmt) rest).
  { apply firstn_all2. rewrite length_skipn. lia. }
  rewrite Hall in *.
  destruct (py_float_unpack_single order fmt _ Hc Hsz Hl1) as [fx Hx].
  destruct (py_float_unpack_single order fmt _ Hc Hsz Hl2) as [fy Hy].
  exists fx, fy. split; [exact Hx|]. split; [exact Hy|].
  unfold call, __init__. rewrite Hx, Hy. reflexivity.
Qed.

Lemma frombytes_accepts_numeric_typecodes_witness :
  exists fx fy,
    py_float (unpack_single LittleEndian (FmtInt 1 true)
                (firstn 1 [Byte.x01; Byte.xff])) = Ok fx /\
    py_float (unpack_single LittleEndian (FmtInt 1 true)
                (skipn 1 [Byte.x01; Byte.xff])) = Ok fy /\
    frombytes LittleEndian Vector2d (Byte.x62 :: [Byte.x01; Byte.xff])
    = Ok (mkInstance Vector2d fx fy).
Proof.
  apply (frombytes_accepts_numeric_typecodes LittleEndian Vector2d Byte.x62
           [Byte.x01; Byte.xff] (FmtInt 1 true)).
  - reflexivity.
  - discriminate.
  - reflexivity.
Defined.

(** ** Encoding: what it determines and what survives a second trip *)

Lemma at_typecode_width_idempotent cls f :
  at_typecode_width cls (at_typecode_width cls f) = at_typecode_width cls f.
Proof.
  destruct cls; simpl; [reflexivity|].
  rewrite single_of_double_of_single. reflexivity.
Qed.

Lemma packed_item_at_width order cls f :
  packed_item order cls (at_typecode_width cls f) = packed_item order cls f.
Proof.
  destruct cls; simpl; [reflexivity|].
  rewrite single_of_double_of_single. reflexivity.
Qed.

Lemma typecode_byte_injective c1 c2 :
  byte_of_Z (ord (typecode c1)) = byte_of_Z (ord (typecode c2)) -> c1 = c2.
Proof. destruct c1, c2; simpl; intros H; try reflexivity; discriminate H. Qed.

(** Decoding an encoding with the class that produced it gives a vector
    whose own encoding is the same bytes: after one trip through bytes the
    coordinates are at the width of the type code, and further trips change
    nothing, for the single-precision variant too. *)
Theorem reencoding_is_stable (order : byteorder) (self : instance) :
  exists octets v,
    __bytes__ order self = Ok octets /\
    frombytes order (ob_type self) octets = Ok v /\
    __bytes__ order v = Ok octets.
Proof.
  destruct (frombytes_bytes order (ob_type self) self) as (octets & Hb & Hf).
  exists octets. eexists. split; [exact Hb|]. split; [exact Hf|].
  rewrite bytes_packed. cbn [ob_type x y].
  rewrite !packed_item_at_width. rewrite bytes_packed in Hb. exact Hb.
Qed.

(** A coordinate of a [ShortVector2d] comes back from the trip through
    bytes unchanged exactly when it is the widening of a single-precision
    number. *)
Theorem short_round_trip_exact_iff
  (order : byteorder) (cls : pyclass) (fx fy : float) :
  exists octets v,
    __bytes__ order (mkInstance ShortVector2d fx fy) = Ok octets /\
    frombytes order cls octets = Ok v /\
    (x v = fx <-> exists s : binary32, fx = double_of_single s) /\
    (y v = fy <-> exists s : binary32, fy = double_of_single s).
Proof.
  destruct (frombytes_bytes order cls (mkInstance ShortVector2d fx fy))
    as (octets & Hb & Hf).
  exists octets. eexists. split; [exact Hb|]. split; [exact Hf|].
  cbn [x y ob_type at_typecode_width].
  split; split.
  - intros H. exists (single_of_double fx). symmetry. exact H.
  - intros [s ->]. rewrite single_of_double_of_single. reflexivity.
  - intros H. exists (single_of_double fy). symmetry. exact H.
  - intros [s ->]. rewrite single_of_double_of_single. reflexivity.
Qed.

(** Two vectors that have the same encoding are of the same class and
    their coordinates agree at the width of its type code, so that the
    encoding of a [Vector2d] determines it; conversely, two vectors of one
    class whose coordinates are no NaN (of a NaN the encoding keeps the
    sign and the payload, which a value here does not have) and agree at
    the width of its type code have the same encoding. *)
Theorem encoding_determines_vector (order : byteorder) (v1 v2 : instance) :
  (__bytes__ order v1 = __bytes__ order v2 ->
   ob_type v1 = ob_type v2 /\
   at_typecode_width (ob_type v1) (x v1) = at_typecode_width (ob_type v1) (x v2) /\
   at_typecode_width (ob_type v1) (y v1) = at_typecode_width (ob_type v1) (y v2)) /\
  (ob_type v1 = Vector2d -> __bytes__ order v1 = __bytes__ order v2 -> v1 = v2) /\
  (IEEE.is_nan (x v1) = false -> IEEE.is_nan (y v1) = false ->
   IEEE.is_nan (x v2) = false -> IEEE.is_nan (y v2) = false ->
   ob_type v1 = ob_type v2 ->
   at_typecode_width (ob_type v1) (x v1) = at_typecode_width (ob_type v1) (x v2) ->
   at_typecode_width (ob_type v1) (y v1) = at_typecode_width (ob_type v1) (y v2) ->
   __bytes__ order v1 = __bytes__ order v2).
Proof.
  assert (Hfwd : __bytes__ order v1 = __bytes__ order v2 ->
     ob_type v1 = ob_type v2 /\
     at_typecode_width (ob_type v1) (x v1) = at_typecode_width (ob_type v1) (x v2) /\
     at_typecode_width (ob_type v1) (y v1) = at_typecode_width (ob_type v1) (y v2)).
  { intros H.
    assert (Hc : ob_type v1 = ob_type v2).
    { rewrite !bytes_packed in H. injection H as H _.
      apply typecode_byte_injective. exact H. }
    destruct (frombytes_bytes order (ob_type v1) v1) as (o1 & Hb1 & Hf1).
    destruct (frombytes_bytes order (ob_type v1) v2) as (o2 & Hb2 & Hf2).
    rewrite H, Hb2 in Hb1. injection Hb1 as <-.
    rewrite Hf1 in Hf2. injection Hf2 as Hx Hy. rewrite <- Hc in Hx, Hy.
    auto. }
  split; [exact Hfwd|]. split.
  - intros Hv H. destruct (Hfwd H) as (Hc & Hx & Hy).
    rewrite Hv in Hx, Hy. simpl in Hx, Hy.
    destruct v1 as [c1 x1 y1], v2 as [c2 x2 y2]. simpl in *. congruence.
  - intros _ _ _ _ Hc Hx Hy. rewrite !bytes_packed, <- Hc.
    rewrite <- (packed_item_at_width order _ (x v1)), Hx, packed_item_at_width.
    rewrite <- (packed_item_at_width order _ (y v1)), Hy, packed_item_at_width.
    reflexivity.
Qed.

(** ** Hashing agrees with equality across types *)

Lemma pow2_61_mod k : 0 <= k -> 2 ^ (61 * k) mod hash_modulus = 1.
Proof.
  intros Hk. rewrite Z.pow_mul_r by lia.
  rewrite <- Z.mod_pow_l.
  change (2 ^ 61 mod hash_modulus) with 1.
  rewrite Z.pow_1_l by lia. reflexivity.
Qed.

Lemma pow2_mod_61 e :
  0 <= e -> 2 ^ e mod hash_modulus = 2 ^ (e mod 61) mod hash_modulus.
Proof.
  intros He.
  pose proof (Z.div_mod e 61 ltac:(lia)) as Hd.
  pose proof (Z.mod_pos_bound e 61 ltac:(lia)) as Hb.
  assert (0 <= e / 61) by (apply Z.div_pos; lia).
  rewrite Hd at 1. rewrite Z.pow_add_r by lia.
  rewrite Z.mul_mod by (unfold hash_modulus; lia).
  rewrite pow2_61_mod by lia. rewrite Z.mul_1_l.
  apply Z.mod_mod. unfold hash_modulus. lia.
Qed.

Lemma hash_reduce m e n :
  0 <= n ->
  (0 <= e -> m * 2 ^ e = n) ->
  (e < 0 -> m = n * 2 ^ (- e)) ->
  (m * 2 ^ (e mod 61)) mod hash_modulus = n mod hash_modulus.
Proof.
  intros Hn Hpos Hneg.
  assert (HP : hash_modulus <> 0) by (unfold hash_modulus; lia).
  pose proof (Z.div_mod e 61 ltac:(lia)) as Hd.
  pose proof (Z.mod_pos_bound e 61 ltac:(lia)) as Hb.
  destruct (Z_lt_le_dec e 0) as [He|He].
  - rewrite (Hneg He), <- Z.mul_assoc, <- Z.pow_add_r by lia.
    replace (- e + e mod 61) with (61 * (- (e / 61))) by lia.
    assert (e / 61 < 0) by (apply Z.div_lt_upper_bound; lia).
    rewrite <- Z.mul_mod_idemp_r by assumption.
    rewrite pow2_61_mod by lia. rewrite Z.mul_1_r. reflexivity.
  - rewrite <- (Hpos He).
    rewrite <- (Z.mul_mod_idemp_r m (2 ^ e)) by assumption.
    rewrite pow2_mod_61 by assumption.
    rewrite Z.mul_mod_idemp_r by assumption. reflexivity.
Qed.

Lemma hash_float_of_int (f : float) (n : Z) :
  IEEE.eqb_Z f n = true -> hash_float f = Hash (hash_int n).
Proof.
  unfold IEEE.eqb_Z, hash_float, hash_int.
  destruct (IEEE.fval f) as [s|s| |s m e]; try discriminate.
  - intros H. apply Z.eqb_eq in H. subst n. reflexivity.
  - intros H.
    assert (Hcases : (0 <= e -> (if s then Zneg m else Zpos m) * 2 ^ e = n) /\
                     (e < 0 -> (if s then Zneg m else Zpos m) = n * 2 ^ (- e))).
    { destruct (0 <=? e) eqn:E; apply Z.eqb_eq in H;
        [apply Z.leb_le in E|apply Z.leb_gt in E]; split; intros; try lia; assumption. }
    destruct Hcases as [Hp Hn]. clear H.
    assert (Hpow : forall k, 0 <= k -> 0 < 2 ^ k) by (intros; apply pow2_pos; lia).
    cbv zeta.
    destruct s.
    + assert (n < 0).
      { destruct (Z_lt_le_dec e 0) as [He|He].
        - specialize (Hn He). pose proof (Hpow (- e) ltac:(lia)).
          change (Zneg m) with (- Zpos m) in Hn. nia.
        - specialize (Hp He). pose proof (Hpow e He).
          change (Zneg m) with (- Zpos m) in Hp. nia. }
      rewrite (hash_reduce (Zpos m) e (- n)).
      * replace (Z.abs n) with (- n) by lia.
        replace (Z.sgn n) with (-1) by lia.
        replace (-1 * (- n mod hash_modulus)) with (- (- n mod hash_modulus)) by lia.
        reflexivity.
      * lia.
      * intros He. specialize (Hp He). change (Zneg m) with (- Zpos m) in Hp. lia.
      * intros He. specialize (Hn He). change (Zneg m) with (- Zpos m) in Hn. lia.
    + assert (0 < n).
      { destruct (Z_lt_le_dec e 0) as [He|He].
        - specialize (Hn He). pose proof (Hpow (- e) ltac:(lia)). nia.
        - specialize (Hp He). pose proof (Hpow e He). nia. }
      rewrite (hash_reduce (Zpos m) e n) by (try assumption; lia).
      replace (Z.abs n) with n by lia.
      replace (Z.sgn n) with 1 by lia.
      rewrite Z.mul_1_l. reflexivity.
Qed.

Lemma hash_number_of_equal (f : float) (v : value) :
  float_eq f v = true ->
  exists h, hash_float f = Hash h /\ hash_number v = Hash h.
Proof.
  destruct v; simpl; try discriminate.
  - intros H. exists (hash_int (if b then 1 else 0)).
    split; [apply hash_float_of_int; exact H|reflexivity].
  - intros H. exists (hash_int n).
    split; [apply hash_float_of_int; exact H|reflexivity].
  - intros H. apply hash_float_eqb. exact H.
Qed.

(** A vector that equals a tuple of two numbers ([int], [bool] or
    [float]) has the hash of that tuple: equal objects hash equally across
    the types, so a vector and the tuple are one key of a dict or a set. *)
Theorem equal_tuple_hashes_equal (self : instance) (a b : value) :
  eq_op self (PyTuple [a; b]) = Ok true ->
  exists h,
    __hash__ self = Hash h /\ hash_number_tuple [a; b] = Hash h.
Proof.
  unfold eq_op, __eq__. simpl. rewrite andb_true_r. intros [= H].
  apply andb_prop in H. destruct H as [Hx Hy].
  destruct (hash_number_of_equal _ _ Hx) as (hx & Hx1 & Hx2).
  destruct (hash_number_of_equal _ _ Hy) as (hy & Hy1 & Hy2).
  exists (tuplehash_lanes [hx; hy]).
  unfold __hash__, hash_tuple, hash_number_tuple. simpl.
  rewrite Hx1, Hy1, Hx2, Hy2. auto.
Qed.

Lemma equal_tuple_hashes_equal_witness :
  exists h,
    __hash__ (mkInstance ShortVector2d (float_of_Z (-3)) (float_of_decimal 45 (-1)))
      = Hash h /\
    hash_number_tuple [PyInt (-3); PyFloat (float_of_decimal 45 (-1))] = Hash h.
Proof.
  apply (equal_tuple_hashes_equal
           (mkInstance ShortVector2d (float_of_Z (-3)) (float_of_decimal 45 (-1)))
           (PyInt (-3)) (PyFloat (float_of_decimal 45 (-1)))).
  vm_compute. reflexivity.
Defined.

(** ** The integers that construction accepts *)

Lemma div_half_even_below m d k :
  0 <= m -> 0 < d -> 2 * m < 2 * k * d + d -> div_half_even m d <= k.
Proof.
  intros Hm Hd Hk. unfold div_half_even.
  pose proof (Z.mod_pos_bound m d Hd) as Hb.
  pose proof (Z.div_mod m d ltac:(lia)) as Hdm.
  assert (m / d < k + 1) by (apply Z.div_lt_upper_bound; nia).
  destruct (2 * (m mod d) <? d) eqn:E1; [lia|].
  apply Z.ltb_ge in E1.
  assert (m / d < k) by nia.
  destruct (d <? 2 * (m mod d)); [lia|]. destruct (Z.even (m / d)); lia.
Qed.

Lemma div_half_even_above_odd m d k :
  0 <= m -> 0 < d -> Z.odd k = true -> 2 * k * d + d <= 2 * m ->
  k + 1 <= div_half_even m d.
Proof.
  intros Hm Hd Hodd Hk. unfold div_half_even.
  pose proof (Z.mod_pos_bound m d Hd) as Hb.
  pose proof (Z.div_mod m d ltac:(lia)) as Hdm.
  assert (k <= m / d) by (apply Z.div_le_lower_bound; nia).
  destruct (Z.eq_dec (m / d) k) as [E|E].
  - rewrite E in *.
    assert (d <= 2 * (m mod d)) by nia.
    replace (2 * (m mod d) <? d) with false by (symmetry; apply Z.ltb_ge; lia).
    destruct (d <? 2 * (m mod d)); [lia|].
    rewrite <- Z.negb_odd, Hodd. simpl. lia.
  - destruct (2 * (m mod d) <? d); [lia|].
    destruct (d <? 2 * (m mod d)); [lia|]. destruct (Z.even (m / d)); lia.
Qed.

(** The doubles end at [(2^53 - 1) * 2^971]; an integer rounds to a
    double when it is below the midpoint between this and [2^1024]. *)
Lemma binary_round_int_cases s p :
  if Zpos p <? 2 ^ 1024 - 2 ^ 970
  then exists mz e3, binary_round 53 1024 s p 0 = S754_finite s mz e3
  else binary_round 53 1024 s p 0 = S754_infinity s.
Proof.
  assert (Hd0 : 0 < Zpos (digits2_pos p)) by lia.
  pose proof (Zdigits2_bounds (Zpos p) ltac:(lia)) as Hpb.
  change (Zdigits2 (Zpos p)) with (Zpos (digits2_pos p)) in Hpb.
  set (d := Zpos (digits2_pos p)) in *.
  assert (H1024 : 2 ^ 1024 = 2 ^ 53 * 2 ^ 971) by (rewrite <- Z.pow_add_r; [reflexivity|lia|lia]).
  assert (H971 : 2 ^ 971 = 2 * 2 ^ 970) by (rewrite <- Z.pow_succ_r; [reflexivity|lia]).
  assert (H970 : 0 < 2 ^ 970) by (apply pow2_pos; lia).
  assert (H53 : 2 ^ 53 = 9007199254740992) by reflexivity.
  destruct (Z_le_gt_dec d 53) as [Hle|Hgt].
  - (* at most 53 digits: exact *)
    assert (Zpos p < 2 ^ 53).
    { assert (2 ^ d <= 2 ^ 53) by (apply Z.pow_le_mono_r; lia). lia. }
    replace (Zpos p <? 2 ^ 1024 - 2 ^ 970) with true
      by (symmetry; apply Z.ltb_lt; nia).
    assert (Hf : SpecFloat.fexp 53 1024 (d + 0) <= 0).
    { unfold SpecFloat.fexp, emin. lia. }
    destruct (binary_round_left 53 1024 s p 0 Hf) as (mz & _ & Hr).
    fold d in Hr.
    set (e3 := SpecFloat.fexp 53 1024 (d + 0)) in *.
    replace (e3 <=? 1024 - 53) with true in Hr by (symmetry; apply Z.leb_le; lia).
    eauto.
  - (* more than 53 digits: rounded *)
    assert (Hf : SpecFloat.fexp 53 1024 (d + 0) = d - 53).
    { unfold SpecFloat.fexp, emin. lia. }
    pose proof (binary_round_right 53 1024 s p 0) as Hr.
    fold d in Hr. rewrite Hf in Hr. specialize (Hr ltac:(lia)).
    set (n := d - 53) in *.
    replace (n - 0) with n in Hr by lia.
    pose proof (pow2_pos n ltac:(lia)) as Hpn.
    destruct (div_half_even_error (Zpos p) (2 ^ n) ltac:(lia) Hpn) as [_ Hq].
    cbv zeta in Hq.
    assert (Hdq0 : Zdigits2 (Zpos p / 2 ^ n) = 53).
    { rewrite Zdigits2_div_pow2 by lia.
      change (Zdigits2 (Zpos p)) with d. lia. }
    assert (Hq0 : 2 ^ 52 <= Zpos p / 2 ^ n < 2 ^ 53).
    { assert (0 < Zpos p / 2 ^ n).
      { destruct (Z.eq_dec (Zpos p / 2 ^ n) 0) as [E|]; [rewrite E in Hdq0; discriminate|].
        assert (0 <= Zpos p / 2 ^ n) by (apply Z.div_pos; lia). lia. }
      pose proof (Zdigits2_bounds (Zpos p / 2 ^ n) ltac:(lia)) as Hb.
      rewrite Hdq0 in Hb. exact Hb. }
    assert (H52 : 2 ^ 52 = 4503599627370496) by reflexivity.
    destruct (finish_value 53 1024 ltac:(lia) s
                (div_half_even (Zpos p) (2 ^ n)) (Zpos p / 2 ^ n) n)
      as (mz & e2 & Hfin & _ & He2 & _).
    { lia. } { lia. } { lia. }
    { rewrite Hdq0. unfold SpecFloat.fexp, emin. lia. }
    rewrite Hr, Hfin. clear Hr Hfin.
    set (q := div_half_even (Zpos p) (2 ^ n)) in *.
    assert (Hdq : 53 <= Zdigits2 q <= 54).
    { split.
      - rewrite <- Hdq0. apply Zdigits2_le. lia.
      - apply Zdigits2_lt_pow2; [|lia]. change (2 ^ 54) with (2 * 2 ^ 53). lia. }
    assert (He2' : e2 = Zdigits2 q + n - 53).
    { rewrite He2. unfold SpecFloat.fexp, emin. lia. }
    destruct (Zpos p <? 2 ^ 1024 - 2 ^ 970) eqn:Elim;
      [apply Z.ltb_lt in Elim|apply Z.ltb_ge in Elim].
    + (* below the limit: the exponent fits *)
      assert (Hd1024 : d <= 1024).
      { destruct (Z_le_gt_dec d 1024) as [|Hbig]; [assumption|].
        assert (2 ^ 1024 <= 2 ^ (d - 1)) by (apply Z.pow_le_mono_r; lia). lia. }
      assert (e2 <= 971).
      { destruct (Z.eq_dec d 1024) as [Ed|Ed]; [|lia].
        assert (En : n = 971) by lia.
        assert (q <= 2 ^ 53 - 1).
        { unfold q. rewrite En. apply div_half_even_below; lia. }
        assert (Zdigits2 q <= 53) by (apply Zdigits2_lt_pow2; lia).
        lia. }
      replace (e2 <=? 1024 - 53) with true by (symmetry; apply Z.leb_le; lia).
      eauto.
    + (* at or above the limit: overflow *)
      assert (Hd1024 : 1024 <= d).
      { destruct (Z_le_gt_dec 1024 d) as [|Hsmall]; [assumption|].
        assert (2 ^ d <= 2 ^ 1023) by (apply Z.pow_le_mono_r; lia).
        assert (2 ^ 1024 = 2 * 2 ^ 1023) by (rewrite <- Z.pow_succ_r; [reflexivity|lia]).
        assert (2 ^ 970 < 2 ^ 1023) by (apply Z.pow_lt_mono_r; lia).
        lia. }
      assert (971 < e2).
      { destruct (Z.eq_dec d 1024) as [Ed|Ed]; [|lia].
        assert (En : n = 971) by lia.
        assert (2 ^ 53 - 1 + 1 <= q).
        { unfold q. rewrite En. apply div_half_even_above_odd; try lia.
          rewrite H53. reflexivity. }
        assert (Zdigits2 q = 54).
        { apply Zdigits2_unique; [|lia]. change (54 - 1) with 53.
          change (2 ^ 54) with (2 * 2 ^ 53). lia. }
        lia. }
      replace (e2 <=? 1024 - 53) with false by (symmetry; apply Z.leb_gt; lia).
      reflexivity.
Qed.

Lemma float_of_int_cases n :
  if Z.abs n <? 2 ^ 1024 - 2 ^ 970
  then exists f, float_of_int n = Ok f
  else float_of_int n = Raise OverflowError.
Proof.
  unfold float_of_int, IEEE.is_finite.
  rewrite fval_of_Z by lia.
  assert (H970 : 0 < 2 ^ 970) by (apply pow2_pos; lia).
  assert (H1024 : 2 ^ 1024 = 2 ^ 54 * 2 ^ 970) by (rewrite <- Z.pow_add_r; [reflexivity|lia|lia]).
  assert (H54 : 2 ^ 54 = 18014398509481984) by reflexivity.
  destruct n as [|p|p]; cbn [binary_normalize].
  - replace (Z.abs 0 <? 2 ^ 1024 - 2 ^ 970) with true
      by (symmetry; apply Z.ltb_lt; change (Z.abs 0) with 0; lia).
    eauto.
  - change (Z.abs (Zpos p)) with (Zpos p).
    pose proof (binary_round_int_cases false p) as H.
    destruct (Zpos p <? 2 ^ 1024 - 2 ^ 970).
    + destruct H as (mz & e3 & ->). eauto.
    + rewrite H. reflexivity.
  - change (Z.abs (Zneg p)) with (Zpos p).
    pose proof (binary_round_int_cases true p) as H.
    destruct (Zpos p <? 2 ^ 1024 - 2 ^ 970).
    + destruct H as (mz & e3 & ->). eauto.
    + rewrite H. reflexivity.
Qed.

(** Construction from two [int]s succeeds exactly when both are below
    [2^1024 - 2^970] in magnitude, the midpoint between the largest double
    and [2^1024]; from there on [float()] raises [OverflowError], and so
    does construction. *)
Theorem init_of_ints (cls : pyclass) (n m : Z) :
  if (Z.abs n <? 2 ^ 1024 - 2 ^ 970) && (Z.abs m <? 2 ^ 1024 - 2 ^ 970)
  then exists fx fy,
         float_of_int n = Ok fx /\ float_of_int m = Ok fy /\
         __init__ cls (PyInt n) (PyInt m) = Ok (mkInstance cls fx fy)
  else __init__ cls (PyInt n) (PyInt m) = Raise OverflowError.
Proof.
  unfold __init__. cbn [py_float].
  pose proof (float_of_int_cases n) as Hn.
  pose proof (float_of_int_cases m) as Hm.
  destruct (Z.abs n <? 2 ^ 1024 - 2 ^ 970).
  - destruct Hn as [fx Hx]. rewrite Hx. cbn [bind andb].
    destruct (Z.abs m <? 2 ^ 1024 - 2 ^ 970).
    + destruct Hm as [fy Hy]. rewrite Hy. eauto.
    + rewrite Hm. reflexivity.
  - rewrite Hn. reflexivity.
Qed.

(** ** Equality as a relation between vectors *)

(** [==] between vectors is symmetric and transitive, across the two
    classes: it compares the coordinates as numbers, whatever the class of
    either operand. *)
Theorem eq_vectors_symmetric_transitive (u v w : instance) :
  eq_op u (PyVector v) = eq_op v (PyVector u) /\
  (eq_op u (PyVector v) = Ok true ->
   eq_op v (PyVector w) = Ok true ->
   eq_op u (PyVector w) = Ok true).
Proof.
  rewrite !eq_op_vector. unfold IEEE.eqb. split.
  - rewrite (SFeqb_sym (IEEE.fval (x u))), (SFeqb_sym (IEEE.fval (y u))).
    reflexivity.
  - intros [= H1] [= H2].
    apply andb_prop in H1. destruct H1 as [H1x H1y].
    apply andb_prop in H2. destruct H2 as [H2x H2y].
    rewrite (SFeqb_trans _ _ _ H1x H2x), (SFeqb_trans _ _ _ H1y H2y).
    reflexivity.
Qed.

(** ** Equality with strings and bytes *)

Lemma tuple_eq_strings t (cs : list ascii) :
  tuple_eq t (map (fun c => PyStr (String c EmptyString)) cs) = true ->
  t = [] /\ cs = [].
Proof.
  destruct t as [|a t], cs as [|c cs]; simpl; try discriminate; auto.
Qed.

(** A vector never equals a string; it equals a [bytes] object exactly
    when that has two bytes whose values, as integers, equal the
    coordinates: [__eq__] accepts every iterable and compares it item by
    item. *)
Theorem eq_with_str_and_bytes (self : instance) :
  (forall s : string, eq_op self (PyStr s) = Ok false) /\
  (forall b : list byte,
     eq_op self (PyBytes b) = Ok true <->
     exists b1 b2,
       b = [b1; b2] /\
       IEEE.eqb_Z (x self) (Z_of_byte b1) = true /\
       IEEE.eqb_Z (y self) (Z_of_byte b2) = true).
Proof.
  split.
  - intros s. unfold eq_op, __eq__. cbn [is_Iterable negb py_tuple bind].
    destruct (tuple_eq _ _) eqn:E; [|reflexivity].
    apply tuple_eq_strings in E. destruct E as [E _]. discriminate E.
  - intros b. unfold eq_op, __eq__. cbn [is_Iterable negb py_tuple bind].
    unfold __iter__. split.
    + intros [= H].
      destruct b as [|b1 [|b2 [|b3 b]]]; simpl in H; try discriminate H.
      * rewrite andb_false_r in H. discriminate H.
      * rewrite andb_true_r in H. apply andb_prop in H. eauto.
      * rewrite !andb_false_r in H. discriminate H.
    + intros (b1 & b2 & -> & H1 & H2). simpl. rewrite H1, H2. reflexivity.
Qed.

(** ** [repr], [str] and [format] *)

Lemma append_assoc (a b c : string) :
  ((a ++ b) ++ c)%string = (a ++ (b ++ c))%string.
Proof. induction a as [|ch a IH]; simpl; [reflexivity|]. rewrite IH. reflexivity. Qed.

Lemma append_nil_r (a : string) : (a ++ EmptyString)%string = a.
Proof. induction a as [|ch a IH]; simpl; [reflexivity|]. rewrite IH. reflexivity. Qed.

Lemma str_pair self :
  __str__ self
  = ("(" ++ float_repr (x self) ++ ", " ++ float_repr (y self) ++ ")")%string.
Proof.
  unfold __str__, tuple_repr, __iter__. cbn [map String.concat].
  rewrite !append_assoc. reflexivity.
Qed.

(** [repr(v)] never raises and is the name of the class of [v] followed
    by [str(v)], the pair of the coordinates as [repr] writes them; so the
    [repr] of a [Vector2d] is no [repr] of a [ShortVector2d], while [str]
    does not tell the class. *)
Theorem repr_is_name_and_str (self : instance) :
  __repr__ self = Ok (__name__ (ob_type self) ++ __str__ self)%string /\
  (forall other : instance,
     __repr__ self = __repr__ other -> ob_type self = ob_type other) /\
  (forall cls : pyclass,
     __str__ (mkInstance cls (x self) (y self)) = __str__ self).
Proof.
  assert (H : forall v,
    __repr__ v = Ok (__name__ (ob_type v) ++ __str__ v)%string).
  { intros v. rewrite str_pair. unfold __repr__, __iter__.
    cbn [map str_format bind]. rewrite append_nil_r. reflexivity. }
  split; [apply H|]. split.
  - intros other E. rewrite !H in E. injection E as E.
    destruct (ob_type self), (ob_type other); try reflexivity;
      simpl in E; discriminate E.
  - intros cls. reflexivity.
Qed.

(** Where the float formatter renders the empty specifier as [repr]
    does, [format(v, '')] is [str(v)], whatever the C library computes. *)
Theorem format_empty_is_str
  (hypot atan2 : float -> float -> float)
  (format_float : float -> string -> result string) (self : instance) :
  format_float (x self) EmptyString = Ok (float_repr (x self)) ->
  format_float (y self) EmptyString = Ok (float_repr (y self)) ->
  __format__ hypot atan2 format_float self EmptyString = Ok (__str__ self).
Proof.
  intros Hx Hy. rewrite str_pair. unfold __format__, __iter__.
  cbn [endswith list_ascii_of_string rev map_result].
  rewrite Hx, Hy. cbn [bind str_format]. rewrite append_nil_r. reflexivity.
Qed.

Lemma format_empty_is_str_witness :
  __format__ (fun a _ => a) (fun a _ => a) (fun c _ => Ok (float_repr c))
    (mkInstance ShortVector2d (float_of_decimal 15 (-1)) (float_of_Z (-2)))
    EmptyString
  = Ok (__str__ (mkInstance ShortVector2d (float_of_decimal 15 (-1)) (float_of_Z (-2)))).
Proof.
  apply (format_empty_is_str (fun a _ => a) (fun a _ => a)
           (fun c _ => Ok (float_repr c))
           (mkInstance ShortVector2d (float_of_decimal 15 (-1)) (float_of_Z (-2))));
    reflexivity.
Defined.

(** ** Unpacking *)

(** A vector unpacks into its two coordinates, and [cls( *v )] builds
    from them, without raising, a vector of the class [cls] with the
    coordinates of [v] themselves: no conversion changes a float. *)
Theorem unpacking_rebuilds (cls : pyclass) (self : instance) :
  py_tuple (PyVector self) = Ok (map PyFloat (__iter__ self)) /\
  call cls (map PyFloat (__iter__ self)) = Ok (mkInstance cls (x self) (y self)) /\
  (forall v, call (ob_type self) (map PyFloat (__iter__ self)) = Ok v -> v = self).
Proof.
  split; [reflexivity|]. split; [reflexivity|].
  intros v [= <-]. destruct self; reflexivity.
Qed.
